(** * BeReal: the Gaussian-integer card puzzle of [src/App.tsx]

    A shallow embedding of the game logic of the [App] component: the
    card factory, the arithmetic on complex cards, the selection state
    machine ([onSelectCard]), the two operation engines ([performUnary],
    [performBinary]) and the hand / stock manager.

    Modelling conventions.
    - The coefficients [a] and [b] of a card are JavaScript numbers
      (IEEE doubles) that only ever hold integers.  A coefficient is the
      integer ([Z]) the double holds; sums, differences and products
      are rounded as doubles are ([toDouble]: to 53 significant bits,
      ties to even), so they are exact up to 2^53 in magnitude and
      rounded beyond.  Negation and the products by 1 and -1 are exact.
      Magnitudes past the largest finite double (about 1.8e308), where
      JavaScript continues with [Infinity], are outside the model.
    - Card ids are strings, as in the source.
    - [Math.random()] is a tape of future outcomes that every call
      consumes from the front.  An outcome is used in two ways by the
      source: scaled and floored ([Math.floor(Math.random() * n)]), and
      printed in base 36 ([uid]).  A [Draw] carries both readings.
    - The React state of the component is the record [GameState].  An
      event handler reads the state of the render it was created in and
      queues updates; the queued updates are applied in order.  A handler
      is therefore a function from the current state to the next one. *)

From Stdlib Require Import ZArith Lia Permutation.
From stdpp Require Import base list strings.

Local Open Scope string_scope.
Local Open Scope list_scope.

(** ** Cards *)

Inductive BinOp := OpAdd | OpSub | OpMul.
Inductive UnOp := OpConj | OpMulI | OpMulNegI.

Record ComplexCard := mkComplex { c_id : string; a : Z; b : Z }.
Record BinaryOpCard := mkBinary { b_id : string; b_op : BinOp }.
Record UnaryOpCard := mkUnary { u_id : string; u_op : UnOp }.

Inductive Card :=
| Complex (c : ComplexCard)
| Binary (o : BinaryOpCard)
| Unary (o : UnaryOpCard).

Inductive Kind := KComplex | KBinary | KUnary.

Definition card_id (c : Card) : string :=
  match c with
  | Complex z => c_id z
  | Binary o => b_id o
  | Unary o => u_id o
  end.

Definition kind (c : Card) : Kind :=
  match c with
  | Complex _ => KComplex
  | Binary _ => KBinary
  | Unary _ => KUnary
  end.

Definition Kind_eqb (k1 k2 : Kind) : bool :=
  match k1, k2 with
  | KComplex, KComplex | KBinary, KBinary | KUnary, KUnary => true
  | _, _ => false
  end.

(** ** The random source *)

(** One outcome of [Math.random()]: [level mod n] is
    [Math.floor(r * n)], [digits] is [r.toString(36).slice(2, 9)]. *)
Record Draw := mkDraw { level : nat; digits : string }.

Definition Rng := nat -> Draw.

Definition Gen (A : Type) : Type := Rng -> A * Rng.

#[global] Instance gen_ret : MRet Gen := fun A x r => (x, r).

#[global] Instance gen_bind : MBind Gen :=
  fun A B k m r => let (x, r') := m r in k x r'.

Definition run {A} (m : Gen A) (r : Rng) : A := fst (m r).

Definition mathRandom : Gen Draw :=
  fun r => (r 0, fun n => r (S n)).

(** [Math.floor(Math.random() * n)] *)
Definition randomBelow (n : nat) : Gen nat :=
  d ← mathRandom; mret (level d mod n)%nat.

Definition uid (prefix : string) : Gen string :=
  d ← mathRandom; mret (prefix +:+ "_" +:+ digits d).

(** ** Arithmetic on complex cards *)

Local Open Scope Z_scope.

(** The double nearest to a non-negative integer [m]: [m] itself below
    2^53; beyond, the nearest multiple of the spacing of doubles of that
    size, the even multiple when [m] is half way. *)
Definition roundMagnitude (m : Z) : Z :=
  if m <? 2 ^ 53 then m
  else
    let spacing := 2 ^ (Z.log2 m - 52) in
    let q := m / spacing in
    let rest := m mod spacing in
    let half := spacing / 2 in
    if (half <? rest) || ((rest =? half) && Z.odd q)
    then (q + 1) * spacing
    else q * spacing.

(** The result of a double operation whose exact result is [n]. *)
Definition toDouble (n : Z) : Z := Z.sgn n * roundMagnitude (Z.abs n).

Definition add (z1 z2 : ComplexCard) : Gen ComplexCard :=
  i ← uid "c";
  mret (mkComplex i (toDouble (a z1 + a z2)) (toDouble (b z1 + b z2))).

Definition sub (z1 z2 : ComplexCard) : Gen ComplexCard :=
  i ← uid "c";
  mret (mkComplex i (toDouble (a z1 - a z2)) (toDouble (b z1 - b z2))).

(** Each product is rounded, then their difference or sum. *)
Definition mul (z1 z2 : ComplexCard) : Gen ComplexCard :=
  let a' := toDouble (toDouble (a z1 * a z2) - toDouble (b z1 * b z2)) in
  let b' := toDouble (toDouble (a z1 * b z2) + toDouble (b z1 * a z2)) in
  i ← uid "c"; mret (mkComplex i a' b').

Definition conj (z : ComplexCard) : Gen ComplexCard :=
  i ← uid "c"; mret (mkComplex i (a z) (- b z)).

(** [sign] is only ever 1 or -1, and these products are exact. *)
Definition imul (z : ComplexCard) (sign : Z) : Gen ComplexCard :=
  let a' := - sign * b z in
  let b' := sign * a z in
  i ← uid "c"; mret (mkComplex i a' b').

Definition isReal (c : ComplexCard) : bool := b c =? 0.

Local Close Scope Z_scope.

(** ** Card factory *)

Definition COMPLEX_RANGE : list Z :=
  [-5; -4; -3; -2; -1; 0; 1; 2; 3; 4; 5]%Z.
Definition COMPLEX_RANGE_NON0 : list Z :=
  [-5; -4; -3; -2; -1; 1; 2; 3; 4; 5]%Z.

(** [arr[Math.floor(Math.random() * arr.length)]]; [d] stands for the
    [undefined] that indexing an empty array gives. *)
Definition sample {A} (d : A) (arr : list A) : Gen A :=
  k ← randomBelow (length arr); mret (nth k arr d).

Definition genComplex : Gen ComplexCard :=
  a' ← sample 0%Z COMPLEX_RANGE;
  b' ← sample 0%Z COMPLEX_RANGE;
  i ← uid "c";
  mret (mkComplex i a' b').

Definition genNonRealComplex : Gen ComplexCard :=
  a' ← sample 0%Z COMPLEX_RANGE;
  b' ← sample 0%Z COMPLEX_RANGE_NON0;
  i ← uid "c";
  mret (mkComplex i a' b').

(** The object literal evaluates [id] before [op]. *)
Definition genBinary : Gen BinaryOpCard :=
  i ← uid "b";
  o ← sample OpMul [OpAdd; OpSub; OpMul];
  mret (mkBinary i o).

Definition genUnary : Gen UnaryOpCard :=
  i ← uid "u";
  o ← sample OpMulNegI [OpConj; OpMulI; OpMulNegI];
  mret (mkUnary i o).

(** [for (let i = 0; i < n; i++) cards.push(gen())] *)
Fixpoint pushMany {A} (n : nat) (gen : Gen A) (cards : list A) : Gen (list A) :=
  match n with
  | O => mret cards
  | S n' => x ← gen; pushMany n' gen (cards ++ [x])
  end.

(** [[cards[i], cards[j]] = [cards[j], cards[i]]] for indices inside the
    array (the only ones the shuffle produces). *)
Definition swap {A} (i j : nat) (cards : list A) : list A :=
  match cards !! i, cards !! j with
  | Some x, Some y => <[j:=x]> (<[i:=y]> cards)
  | _, _ => cards
  end.

(** [for (let i = cards.length - 1; i > 0; i--)]: [shuffleFrom i] runs
    the iterations [i, i-1, ..., 1]. *)
Fixpoint shuffleFrom {A} (i : nat) (cards : list A) : Gen (list A) :=
  match i with
  | O => mret cards
  | S i' =>
      j ← randomBelow (i + 1);
      shuffleFrom i' (swap i j cards)
  end.

Definition genHandBatch : Gen (list Card) :=
  c1 ← pushMany 2 (o ← genBinary; mret (Binary o)) [];
  c2 ← pushMany 4 (z ← genComplex; mret (Complex z)) c1;
  c3 ← pushMany 2 (o ← genUnary; mret (Unary o)) c2;
  shuffleFrom (length c3 - 1) c3.

Definition genInitialBoard (n : nat) : Gen (list ComplexCard) :=
  pushMany n genNonRealComplex [].

(** ** Game state *)

Record GameState := mkState {
  board : list ComplexCard;
  hand : list Card;
  stock : option Card;
  selectedOp : option Card;
  selectedTargets : list string;
  moves : nat;
  totalRemoved : nat;
  gameOver : bool
}.

(** The state setters of the component, in their updater form
    ([setX(prev => f(prev))]); [setX(v)] is the constant updater. *)

Definition setBoard (f : list ComplexCard -> list ComplexCard) (s : GameState) :=
  mkState (f (board s)) (hand s) (stock s) (selectedOp s) (selectedTargets s)
          (moves s) (totalRemoved s) (gameOver s).
Definition setHand (f : list Card -> list Card) (s : GameState) :=
  mkState (board s) (f (hand s)) (stock s) (selectedOp s) (selectedTargets s)
          (moves s) (totalRemoved s) (gameOver s).
Definition setStock (v : option Card) (s : GameState) :=
  mkState (board s) (hand s) v (selectedOp s) (selectedTargets s)
          (moves s) (totalRemoved s) (gameOver s).
Definition setSelectedOp (v : option Card) (s : GameState) :=
  mkState (board s) (hand s) (stock s) v (selectedTargets s)
          (moves s) (totalRemoved s) (gameOver s).
Definition setSelectedTargets (f : list string -> list string) (s : GameState) :=
  mkState (board s) (hand s) (stock s) (selectedOp s) (f (selectedTargets s))
          (moves s) (totalRemoved s) (gameOver s).
Definition setMoves (f : nat -> nat) (s : GameState) :=
  mkState (board s) (hand s) (stock s) (selectedOp s) (selectedTargets s)
          (f (moves s)) (totalRemoved s) (gameOver s).
Definition setTotalRemoved (f : nat -> nat) (s : GameState) :=
  mkState (board s) (hand s) (stock s) (selectedOp s) (selectedTargets s)
          (moves s) (f (totalRemoved s)) (gameOver s).
Definition setGameOver (v : bool) (s : GameState) :=
  mkState (board s) (hand s) (stock s) (selectedOp s) (selectedTargets s)
          (moves s) (totalRemoved s) v.

(** ** Array helpers *)

(** [arr.findIndex(p)]; [None] is the [-1] of the source. *)
Fixpoint findIndex {A} (p : A -> bool) (l : list A) : option nat :=
  match l with
  | [] => None
  | x :: l' => if p x then Some 0 else S <$> findIndex p l'
  end.

Definition hasId (id : string) (c : ComplexCard) : bool := String.eqb (c_id c) id.
Definition cardHasId (id : string) (c : Card) : bool := String.eqb (card_id c) id.

(** [c => c.id !== id] *)
Definition lacksId (id : string) (c : ComplexCard) : bool := negb (String.eqb (c_id c) id).
Definition cardLacksId (id : string) (c : Card) : bool := negb (String.eqb (card_id c) id).

(** [arr.slice(-2)] *)
Definition lastTwo {A} (l : list A) : list A := drop (length l - 2) l.

(** ** Selection and lookup *)

Definition resetSelections (s : GameState) : GameState :=
  setSelectedTargets (fun _ => []) (setSelectedOp None s).

Definition findCardById (s : GameState) (id : string) : option Card :=
  match List.find (cardHasId id) (hand s) with
  | Some fromHand => Some fromHand
  | None =>
      match List.find (hasId id) (board s) with
      | Some fromBoard => Some (Complex fromBoard)
      | None =>
          match stock s with
          | Some st => if String.eqb (card_id st) id then Some st else None
          | None => None
          end
      end
  end.

(** ** Deck manager *)

Definition drawNextBatch (s : GameState) : Gen GameState :=
  batch ← genHandBatch;
  mret (resetSelections (setHand (fun _ => batch) s)).

Definition toggleStockFromHand (s : GameState) (cardId : string) : GameState :=
  match List.find (cardHasId cardId) (hand s) with
  | None => s
  | Some cardInHand =>
      match stock s with
      | Some st =>
          if String.eqb (card_id st) (card_id cardInHand) then setStock None s
          else
            resetSelections
              (setStock (Some cardInHand)
                 (setHand (fun prev => List.filter (cardLacksId cardId) prev ++ [st]) s))
      | None =>
          resetSelections
            (setStock (Some cardInHand)
               (setHand (fun prev => List.filter (cardLacksId cardId) prev) s))
      end
  end.

Definition placeStockBack (s : GameState) : GameState :=
  match stock s with
  | None => s
  | Some st => setStock None (setHand (fun prev => prev ++ [st]) s)
  end.

Definition resetGame (s : GameState) : Gen GameState :=
  bd ← genInitialBoard 6;
  batch ← genHandBatch;
  mret (setGameOver false
         (setTotalRemoved (fun _ => 0)
           (setMoves (fun _ => 0)
             (setSelectedTargets (fun _ => [])
               (setSelectedOp None
                 (setStock None
                   (setHand (fun _ => batch)
                     (setBoard (fun _ => bd) s)))))))).

(** ** Operation engine *)

(** [stock && id === stock.id] *)
Definition stockHasId (s : GameState) (id : string) : bool :=
  match stock s with
  | Some st => String.eqb id (card_id st)
  | None => false
  end.

(** The [result] of [performUnary]. *)
Definition applyUnary (opCard : UnaryOpCard) (target : ComplexCard) : Gen ComplexCard :=
  match u_op opCard with
  | OpConj => conj target
  | OpMulI => imul target 1
  | OpMulNegI => imul target (-1)
  end.

(** The [if (isReal(result)) ... else ...] block of [performUnary]. *)
Definition settleUnary (idx : nat) (result : ComplexCard) (s1 : GameState) : GameState :=
  if isReal result
  then setTotalRemoved (fun t => t + 1) (setBoard (fun prev => delete idx prev) s1)
  else setBoard (fun prev => <[idx:=result]> prev) s1.

Definition performUnary (s : GameState) (opCard : UnaryOpCard) (target : ComplexCard)
  : Gen GameState :=
  match findIndex (hasId (c_id target)) (board s) with
  | None => mret s
  | Some idx =>
      result ← applyUnary opCard target;
      let s1 := setMoves (fun m => m + 1) s in
      let s2 := settleUnary idx result s1 in
      s3 ← drawNextBatch (resetSelections s2);
      mret (if stockHasId s (u_id opCard) then setStock None s3 else s3)
  end.

(** The board update of the non-real branch of [performBinary]. *)
Definition replaceLeft (left right result : ComplexCard) (rightIsBoard : bool)
    (prev : list ComplexCard) : list ComplexCard :=
  match findIndex (hasId (c_id left)) prev with
  | None => prev
  | Some li =>
      let copy := <[li:=result]> prev in
      if rightIsBoard && negb (String.eqb (c_id right) (c_id left)) then
        match findIndex (hasId (c_id right)) copy with
        | Some ri => delete ri copy
        | None => copy
        end
      else copy
  end.

(** The [result] of [performBinary]. *)
Definition applyBinary (opCard : BinaryOpCard) (left right : ComplexCard) : Gen ComplexCard :=
  match b_op opCard with
  | OpAdd => add left right
  | OpSub => sub left right
  | OpMul => mul left right
  end.

(** [board.findIndex((c) => c.id === id) !== -1] *)
Definition onBoard (s : GameState) (id : string) : bool :=
  bool_decide (is_Some (findIndex (hasId id) (board s))).

(** The [if (isReal(result)) ... else ...] block of [performBinary]:
    the update of the board and of the removal counter. *)
Definition settleBinary (left right result : ComplexCard)
    (leftIsBoard rightIsBoard : bool) (s1 : GameState) : GameState :=
  if isReal result then
    if leftIsBoard && rightIsBoard
    then setTotalRemoved (fun t => t + 2)
           (setBoard (fun prev =>
              List.filter (fun c => lacksId (c_id left) c && lacksId (c_id right) c) prev) s1)
    else setTotalRemoved (fun t => t + 1)
           (setBoard (fun prev => List.filter (lacksId (c_id left)) prev) s1)
  else
    let s' := setBoard (replaceLeft left right result rightIsBoard) s1 in
    if rightIsBoard && negb (String.eqb (c_id right) (c_id left))
    then setTotalRemoved (fun t => t + 1) s'
    else s'.

Definition performBinary (s : GameState) (opCard : BinaryOpCard)
    (z1 z2 : ComplexCard) (id1 id2 : string) : Gen GameState :=
  let onBoard1 := onBoard s id1 in
  let onBoard2 := onBoard s id2 in
  (* swap so that left is the board one *)
  let swapped := negb onBoard1 && onBoard2 in
  let left := if swapped then z2 else z1 in
  let right := if swapped then z1 else z2 in
  let leftIsBoard := if swapped then onBoard2 else onBoard1 in
  let rightIsBoard := if swapped then onBoard1 else onBoard2 in
  if negb leftIsBoard then mret (resetSelections s)
  else
    result ← applyBinary opCard left right;
    let s1 := setMoves (fun m => m + 1) s in
    let s2 := settleBinary left right result leftIsBoard rightIsBoard s1 in
    let s3 := if stockHasId s id1 then setStock None s2 else s2 in
    drawNextBatch (resetSelections s3).

(** ** Selection controller *)

(** [selectedOp as BinaryOpCard]: the cast is unchecked, and
    [performBinary] reads only [.op], where every value other than ["+"]
    and ["-"] falls to the multiplication branch. *)
Definition asBinaryOpCard (c : Card) : BinaryOpCard :=
  match c with
  | Binary o => o
  | _ => mkBinary (card_id c) OpMul
  end.

Definition toggleTarget (id : string) (prev : list string) : list string :=
  if existsb (String.eqb id) prev
  then List.filter (fun x => negb (String.eqb x id)) prev
  else lastTwo (prev ++ [id]).

Definition onSelectCard (s : GameState) (id : string) : Gen GameState :=
  match findCardById s id with
  | None => mret s
  | Some card =>
      let isOnBoard := List.find (hasId id) (board s) in
      match card with
      | Binary _ | Unary _ =>
          mret (setSelectedTargets (fun _ => []) (setSelectedOp (Some card) s))
      | Complex secondCard =>
          match selectedOp s with
          | None =>
              match isOnBoard with
              | None => mret (setSelectedTargets (toggleTarget id) s)
              | Some _ => mret s
              end
          | Some (Unary opCard) =>
              match isOnBoard with
              | None => mret s
              | Some target => performUnary s opCard target
              end
          | Some opCard =>
              match selectedTargets s, isOnBoard with
              | [], None => mret (setSelectedTargets (fun _ => [id]) s)
              | [firstId], _ =>
                  if String.eqb firstId id then mret s
                  else
                    match findCardById s firstId with
                    | None => mret s
                    | Some (Complex firstCard) =>
                        performBinary s (asBinaryOpCard opCard)
                                      firstCard secondCard firstId id
                    | Some _ => mret (resetSelections s)
                    end
              | _, _ => mret (resetSelections s)
              end
          end
      end
  end.

(** ** The component as a transition system *)

(** The win effect: it runs after every render in which [board] or
    [gameOver] changed. *)
Definition checkWin (s : GameState) : GameState :=
  if (length (board s) =? 0)%nat && negb (gameOver s)
  then setGameOver true s
  else s.

Inductive Event :=
| SelectCard (id : string)
| ToggleStockFromHand (cardId : string)
| DrawNextBatch
| PlaceStockBack
| ResetGame.

Definition handle (e : Event) (s : GameState) : Gen GameState :=
  match e with
  | SelectCard id => onSelectCard s id
  | ToggleStockFromHand cardId => mret (toggleStockFromHand s cardId)
  | DrawNextBatch => drawNextBatch s
  | PlaceStockBack => mret (placeStockBack s)
  | ResetGame => resetGame s
  end.

Definition step (e : Event) (s : GameState) (r : Rng) : GameState :=
  checkWin (run (handle e s) r).

(** The state once the component is mounted: the [useState] initialisers,
    then the set-up effect (the initial draw) and the win effect. *)
Definition mount : Gen GameState :=
  bd ← genInitialBoard 6;
  batch ← genHandBatch;
  mret (checkWin (mkState bd batch None None [] 0 0 false)).

(** Every event is handled on a tape of its own: between two events the
    component renders, and each render evaluates the initialiser
    [genInitialBoard(6)] again, which moves the random source on. *)
Inductive reachable : GameState -> Prop :=
| reachable_mount r : reachable (run mount r)
| reachable_step s e r : reachable s -> reachable (step e s r).

(** ** Vocabulary of the properties *)

(** Hand cards plus the stocked one. *)
Definition heldCount (s : GameState) : nat :=
  length (hand s) + match stock s with Some _ => 1 | None => 0 end.

(** Number of cards of a given kind. *)
Definition countKind (k : Kind) (l : list Card) : nat :=
  length (List.filter (fun c => Kind_eqb (kind c) k) l).

(** The value of a complex card, without its id. *)
Definition value (z : ComplexCard) : Z * Z := (a z, b z).

(** The integers up to which double arithmetic is exact. *)
Definition inExactRange (n : Z) : Prop := (Z.abs n <= 2 ^ 53)%Z.

(** [always m P]: whatever the random source gives, the result of [m]
    satisfies [P]. *)
Definition always {A} (m : Gen A) (P : A -> Prop) : Prop :=
  forall r, P (run m r).

(** The hand before it is shuffled: two binary operators, four complex
    cards, two unary operators, in this order. *)
Definition batchShape (l : list Card) : Prop :=
  exists bs cs us,
    l = bs ++ cs ++ us /\
    length bs = 2 /\ Forall (fun c => kind c = KBinary) bs /\
    length cs = 4 /\ Forall (fun c => kind c = KComplex) cs /\
    length us = 2 /\ Forall (fun c => kind c = KUnary) us.

(** The ids of the cards the player holds: hand, then stock. *)
Definition heldIds (s : GameState) : list string :=
  map card_id (hand s) ++ match stock s with Some st => [card_id st] | None => [] end.

(** A card that is not real. *)
Definition nonReal (z : ComplexCard) : Prop := b z <> 0%Z.

(** While an operator is selected, every selected target is a complex
    card of the hand or of the stock. *)
Definition targetsHeld (s : GameState) : Prop :=
  selectedOp s <> None ->
  forall t, In t (selectedTargets s) ->
    List.find (hasId t) (board s) = None /\
    exists z, findCardById s t = Some (Complex z).

(** ** A sample game *)

(** A tape whose [n]-th outcome has the two-digit label of [n + k]. *)
Definition label (n : nat) : string :=
  String (Ascii.ascii_of_nat (48 + n / 10 mod 10))
         (String (Ascii.ascii_of_nat (48 + n mod 10)) "").

Definition exampleTape (k : nat) : Rng :=
  fun n => mkDraw (3 * (n + k) + 1) (label (n + k)).

Definition c_02 : ComplexCard := mkComplex "c_02" (-4) (-1).
Definition c_24 : ComplexCard := mkComplex "c_24" (-4) (-1).
Definition b_18 : BinaryOpCard := mkBinary "b_18" OpSub.

(** The freshly mounted game on [exampleTape 0]; its board starts with
    [c_02 = -4 - i] and its hand holds the operator [b_18] (a
    subtraction) and the complex card [c_24 = -4 - i]. *)
Definition mounted : GameState := run mount (exampleTape 0).

(** The hand card [c_24] put into the stock. *)
Definition stocked : GameState :=
  step (ToggleStockFromHand "c_24") mounted (exampleTape 50).

(** On the mounted game: the operator [b_18] selected and the hand card
    [c_24] picked as first operand. *)
Definition picked : GameState :=
  step (SelectCard "c_24")
    (step (SelectCard "b_18") mounted (exampleTape 50)) (exampleTape 50).

(** ... and then the board card [c_02] clicked: [c_02 - c_24 = 0] is
    real, so [c_02] leaves the board. *)
Definition played : GameState := step (SelectCard "c_02") picked (exampleTape 50).

(** The operator [b_18] put into the stock, selected from there, and the
    hand card [c_24] picked as first operand. *)
Definition operatorStocked : GameState :=
  step (SelectCard "c_24")
    (step (SelectCard "b_18")
       (step (ToggleStockFromHand "b_18") mounted (exampleTape 50)) (exampleTape 50))
    (exampleTape 50).

(** The complex card [c_24] put into the stock, the operator [b_18]
    selected from the hand, and the stocked [c_24] picked as first
    operand. *)
Definition operandStocked : GameState :=
  step (SelectCard "c_24")
    (step (SelectCard "b_18") stocked (exampleTape 50)) (exampleTape 50).

(** A one-card board [3i] with the unary operator [×i] selected. *)
Definition lastCard : GameState :=
  mkState [mkComplex "c_z" 0 3]
          [Unary (mkUnary "u_z" OpMulI)] None
          (Some (Unary (mkUnary "u_z" OpMulI))) [] 0 0 false.

(** ** Vocabulary of the further properties *)

(** The ids of all cards on the table: hand, board, stock. *)
Definition tableIds (s : GameState) : list string :=
  map card_id (hand s) ++ map c_id (board s)
    ++ match stock s with Some st => [card_id st] | None => [] end.

(** Operator cards, as [card.kind === "binary" || card.kind === "unary"]. *)
Definition isOperator (c : Card) : bool :=
  match c with Complex _ => false | _ => true end.

(** Board, hand, stock, counters and win flag agree: the two states
    differ at most in the selection. *)
Definition sameTable (s s' : GameState) : Prop :=
  board s' = board s /\ hand s' = hand s /\ stock s' = stock s /\
  moves s' = moves s /\ totalRemoved s' = totalRemoved s /\
  gameOver s' = gameOver s.

(** The ways a click on the card [id] can end. *)
Inductive clickOutcome (s : GameState) (id : string) (r : Rng) : GameState -> Prop :=
| click_ignored : clickOutcome s id r s
| click_operator card :
    findCardById s id = Some card -> isOperator card = true ->
    clickOutcome s id r (setSelectedTargets (fun _ => []) (setSelectedOp (Some card) s))
| click_toggle z :
    selectedOp s = None ->
    findCardById s id = Some (Complex z) ->
    List.find (hasId id) (board s) = None ->
    clickOutcome s id r (setSelectedTargets (toggleTarget id) s)
| click_unary opCard target z :
    selectedOp s = Some (Unary opCard) ->
    findCardById s id = Some (Complex z) ->
    List.find (hasId id) (board s) = Some target ->
    clickOutcome s id r (run (performUnary s opCard target) r)
| click_first opCard z :
    selectedOp s = Some opCard -> kind opCard <> KUnary ->
    selectedTargets s = [] ->
    findCardById s id = Some (Complex z) ->
    List.find (hasId id) (board s) = None ->
    clickOutcome s id r (setSelectedTargets (fun _ => [id]) s)
| click_second opCard firstId z1 z2 :
    selectedOp s = Some opCard -> kind opCard <> KUnary ->
    selectedTargets s = [firstId] -> firstId <> id ->
    findCardById s firstId = Some (Complex z1) ->
    findCardById s id = Some (Complex z2) ->
    clickOutcome s id r
      (run (performBinary s (asBinaryOpCard opCard) z1 z2 firstId id) r)
| click_reset :
    selectedOp s <> None ->
    clickOutcome s id r (resetSelections s).

(** Both coefficients lie in the range the factory draws from. *)
Definition inRange (z : ComplexCard) : Prop :=
  (-5 <= a z <= 5)%Z /\ (-5 <= b z <= 5)%Z.

(** The complex cards of a hand. *)
Definition complexCards (l : list Card) : list ComplexCard :=
  omap (fun c => match c with Complex z => Some z | _ => None end) l.

(** The cards the player holds: the hand, then the stocked card. *)
Definition heldCards (s : GameState) : list Card :=
  hand s ++ option_list (stock s).

(** The shape the selection always has. *)
Definition selectionOk (s : GameState) : Prop :=
  length (selectedTargets s) <= 2 /\
  NoDup (selectedTargets s) /\
  (selectedOp s <> None -> length (selectedTargets s) <= 1) /\
  (forall c, selectedOp s = Some c -> isOperator c = true) /\
  (forall t, In t (selectedTargets s) ->
     List.find (hasId t) (board s) = None /\
     exists z, findCardById s t = Some (Complex z)).

(** A click moved the game on: one move more, a fresh hand of 8, no
    selection, a board that is not longer. *)
Definition movedOn (s s' : GameState) : Prop :=
  moves s' = moves s + 1 /\
  length (hand s') = 8 /\ countKind KBinary (hand s') = 2 /\
  countKind KComplex (hand s') = 4 /\ countKind KUnary (hand s') = 2 /\
  selectedOp s' = None /\ selectedTargets s' = [] /\
  gameOver s' = gameOver s /\
  length (board s') <= length (board s) /\
  totalRemoved s <= totalRemoved s' <= totalRemoved s + 2 /\
  (stock s' = stock s \/ stock s' = None).

(** A second tape, on which the mounted hand holds the conjugation card
    [u_36]; [conjPicked] is that game with [u_36] selected. *)
Definition spreadTape : Rng := fun n => mkDraw (7 * n + 2) (label n).

Definition conjPicked : GameState :=
  step (SelectCard "u_36") (run mount spreadTape) spreadTape.

(** * Properties *)

(** ** Reasoning about generators *)

Lemma run_bind {A B} (m : Gen A) (k : A -> Gen B) r :
  run (m ≫= k) r = run (k (run m r)) (snd (m r)).
Proof.
  unfold run, mbind, gen_bind. destruct (m r) as [x r']. reflexivity.
Qed.

Lemma always_ret {A} (x : A) (P : A -> Prop) : P x -> always (mret x) P.
Proof. intros H r. exact H. Qed.

Lemma always_bind {A B} (m : Gen A) (k : A -> Gen B) (P : A -> Prop) (Q : B -> Prop) :
  always m P -> (forall x, P x -> always (k x) Q) -> always (m ≫= k) Q.
Proof.
  intros Hm Hk r. rewrite run_bind. apply Hk, Hm.
Qed.

Lemma always_mono {A} (m : Gen A) (P Q : A -> Prop) :
  always m P -> (forall x, P x -> Q x) -> always m Q.
Proof. intros H HPQ r. apply HPQ, H. Qed.

Lemma always_true {A} (m : Gen A) : always m (fun _ => True).
Proof. intros r. exact I. Qed.

Lemma always_randomBelow n : (0 < n)%nat -> always (randomBelow n) (fun k => (k < n)%nat).
Proof.
  intros Hn r. unfold randomBelow. rewrite run_bind. unfold run. simpl.
  apply Nat.mod_upper_bound. lia.
Qed.

Lemma always_sample {A} (d : A) (arr : list A) (P : A -> Prop) :
  arr <> [] -> Forall P arr -> always (sample d arr) P.
Proof.
  intros Hne HP. unfold sample.
  eapply always_bind.
  - apply always_randomBelow. destruct arr; simpl; [congruence | lia].
  - intros k Hk. apply always_ret.
    rewrite Forall_forall in HP. apply HP, list_elem_of_In, nth_In, Hk.
Qed.

(** ** Arithmetic *)

Lemma toDouble_exact n : inExactRange n -> toDouble n = n.
Proof.
  unfold inExactRange, toDouble, roundMagnitude. intros Hn.
  destruct (Z.ltb_spec (Z.abs n) (2 ^ 53)) as [Hlt | Hge].
  - rewrite Z.mul_comm. apply Z.abs_sgn.
  - assert (Heq : Z.abs n = (2 ^ 53)%Z) by lia. rewrite Heq.
    change (Z.sgn n * 2 ^ 53 = n)%Z. rewrite <- Heq, Z.mul_comm. apply Z.abs_sgn.
Qed.

Lemma toDouble_opp n : toDouble (- n) = (- toDouble n)%Z.
Proof. unfold toDouble. rewrite Z.sgn_opp, Z.abs_opp. ring. Qed.

(** Rounding sets in right above 2^53, to the even neighbour. *)
Example toDouble_rounds :
  toDouble (2 ^ 53 + 1) = (2 ^ 53)%Z /\ toDouble (2 ^ 53 + 3) = (2 ^ 53 + 4)%Z /\
  toDouble (- (2 ^ 53 + 1)) = (- 2 ^ 53)%Z /\ toDouble (2 ^ 53 + 2) = (2 ^ 53 + 2)%Z.
Proof. repeat split; vm_compute; reflexivity. Qed.

(** C4, as the code has it: as long as the exact results (for [mul]
    also the four products) are at most 2^53 in magnitude, [add], [sub]
    and [mul] compute the componentwise sum, the componentwise
    difference and the complex product, whatever id the result card
    receives.  For all inputs, [conj] negates the imaginary part,
    [imul z sign] is [(-sign*b, sign*a)] for [sign] 1 and -1, that is
    [(-b, a)] and [(b, -a)], and [isReal z] holds exactly when
    [b = 0]. *)
Theorem arithmetic_values_in_exact_range
    (z1 z2 z : ComplexCard) (sign : Z) (r : Rng) :
  (inExactRange (a z1 + a z2) -> inExactRange (b z1 + b z2) ->
   value (run (add z1 z2) r) = (a z1 + a z2, b z1 + b z2)%Z) /\
  (inExactRange (a z1 - a z2) -> inExactRange (b z1 - b z2) ->
   value (run (sub z1 z2) r) = (a z1 - a z2, b z1 - b z2)%Z) /\
  (inExactRange (a z1 * a z2) -> inExactRange (b z1 * b z2) ->
   inExactRange (a z1 * b z2) -> inExactRange (b z1 * a z2) ->
   inExactRange (a z1 * a z2 - b z1 * b z2) -> inExactRange (a z1 * b z2 + b z1 * a z2) ->
   value (run (mul z1 z2) r)
     = (a z1 * a z2 - b z1 * b z2, a z1 * b z2 + b z1 * a z2)%Z) /\
  value (run (conj z) r) = (a z, - b z)%Z /\
  (sign = 1%Z \/ sign = (-1)%Z ->
   value (run (imul z sign) r) = (- sign * b z, sign * a z)%Z) /\
  value (run (imul z 1) r) = (- b z, a z)%Z /\
  value (run (imul z (-1)) r) = (b z, - a z)%Z /\
  (isReal z = true <-> b z = 0%Z).
Proof.
  unfold value, add, sub, mul, conj, imul, isReal.
  rewrite !run_bind. unfold run. simpl.
  split; [intros H1 H2; rewrite !toDouble_exact by assumption; reflexivity |].
  split; [intros H1 H2; rewrite !toDouble_exact by assumption; reflexivity |].
  split.
  { intros H1 H2 H3 H4 H5 H6.
    rewrite (toDouble_exact _ H1), (toDouble_exact _ H2),
      (toDouble_exact _ H3), (toDouble_exact _ H4).
    rewrite (toDouble_exact _ H5), (toDouble_exact _ H6). reflexivity. }
  repeat split; intros; try (f_equal; lia); lia.
Qed.

Lemma arithmetic_values_in_exact_range_witness :
  let z1 := mkComplex "x" 3 2 in
  let z2 := mkComplex "y" (-5) 4 in
  value (run (add z1 z2) (exampleTape 0)) = (-2, 6)%Z /\
  value (run (sub z1 z2) (exampleTape 0)) = (8, -2)%Z /\
  value (run (mul z1 z2) (exampleTape 0)) = (-23, 2)%Z.
Proof.
  cbv zeta.
  assert (Hex : forall n : Z, (Z.abs n <=? 2 ^ 53)%Z = true -> inExactRange n)
    by (intros n H; apply Z.leb_le, H).
  destruct (arithmetic_values_in_exact_range (mkComplex "x" 3 2) (mkComplex "y" (-5) 4)
              (mkComplex "x" 3 2) 1 (exampleTape 0)) as (Hadd & Hsub & Hmul & _).
  split; [| split].
  - apply Hadd; apply Hex; reflexivity.
  - apply Hsub; apply Hex; reflexivity.
  - apply Hmul; apply Hex; reflexivity.
Defined.

(** C4, as stated, fails on large coefficients: the sum of [2^53 + i]
    and [1 + i] has real part [2^53], not [2^53 + 1], and the product
    of [94906267 + i] with its conjugate has real part
    [9007199515875288], two less than [94906267^2 + 1]. *)
Lemma add_rounds_beyond_2_53 :
  value (run (add (mkComplex "x" (2 ^ 53) 1) (mkComplex "y" 1 1)) (exampleTape 0))
    = (2 ^ 53, 2)%Z /\
  value (run (add (mkComplex "x" (2 ^ 53) 1) (mkComplex "y" 1 1)) (exampleTape 0))
    <> (2 ^ 53 + 1, 1 + 1)%Z /\
  value (run (mul (mkComplex "x" 94906267 1) (mkComplex "y" 94906267 (-1)))
             (exampleTape 0))
    = (9007199515875288, 0)%Z /\
  (94906267 * 94906267 - 1 * -1 = 9007199515875290)%Z.
Proof. repeat split; vm_compute; congruence. Qed.

(** ** Card factory *)

Lemma genNonRealComplex_nonreal : always genNonRealComplex (fun z => b z <> 0%Z).
Proof.
  unfold genNonRealComplex.
  eapply always_bind; [apply always_true | intros a' _].
  eapply always_bind.
  - apply (always_sample 0%Z COMPLEX_RANGE_NON0 (fun x => x <> 0%Z)); [discriminate |].
    unfold COMPLEX_RANGE_NON0. repeat constructor; lia.
  - intros b' Hb. eapply always_bind; [apply always_true | intros i _].
    apply always_ret. exact Hb.
Qed.

Lemma always_pushMany {A} (gen : Gen A) (P : A -> Prop) (n : nat) :
  always gen P ->
  forall cards,
    always (pushMany n gen cards)
      (fun out => exists xs, out = cards ++ xs /\ length xs = n /\ Forall P xs).
Proof.
  intros Hgen. induction n as [|n IH]; intros cards; simpl.
  - apply always_ret. exists []. rewrite app_nil_r. auto.
  - eapply always_bind; [exact Hgen | intros x Hx].
    eapply always_mono; [apply IH |].
    intros out (xs & -> & Hlen & Hxs). exists (x :: xs).
    rewrite <- app_assoc. simpl. repeat split; auto.
Qed.

Lemma genInitialBoard_nonreal n :
  always (genInitialBoard n) (Forall (fun z => b z <> 0%Z)).
Proof.
  eapply always_mono.
  - apply (always_pushMany _ _ n genNonRealComplex_nonreal).
  - intros out (xs & -> & _ & Hxs). exact Hxs.
Qed.

Lemma swap_Permutation {A} (i j : nat) (cards : list A) : swap i j cards ≡ₚ cards.
Proof.
  unfold swap.
  destruct (cards !! i) as [x|] eqn:Hi; [| reflexivity].
  destruct (cards !! j) as [y|] eqn:Hj; [| reflexivity].
  by apply Permutation_insert_swap.
Qed.

Lemma shuffleFrom_Permutation {A} (i : nat) :
  forall cards : list A, always (shuffleFrom i cards) (fun out => out ≡ₚ cards).
Proof.
  induction i as [|i IH]; intros cards; simpl.
  - apply always_ret. reflexivity.
  - eapply always_bind; [apply always_true | intros j _].
    eapply always_mono; [apply IH |].
    intros out Hout. simpl in Hout. rewrite Hout. apply swap_Permutation.
Qed.

Lemma countKind_Permutation k (l1 l2 : list Card) :
  l1 ≡ₚ l2 -> countKind k l1 = countKind k l2.
Proof.
  intros H. unfold countKind.
  induction H; simpl; repeat case_match; simpl; congruence.
Qed.

Lemma countKind_app k (l1 l2 : list Card) :
  countKind k (l1 ++ l2) = countKind k l1 + countKind k l2.
Proof. unfold countKind. rewrite List.filter_app, length_app. reflexivity. Qed.

Lemma countKind_all k (l : list Card) :
  Forall (fun c => kind c = k) l -> countKind k l = length l.
Proof.
  unfold countKind. induction 1 as [|c l Hc _ IH]; simpl; [reflexivity |].
  rewrite Hc. destruct k; simpl; rewrite IH; reflexivity.
Qed.

Lemma countKind_none k k' (l : list Card) :
  k' <> k -> Forall (fun c => kind c = k') l -> countKind k l = 0.
Proof.
  unfold countKind. intros Hne. induction 1 as [|c l Hc _ IH]; simpl; [reflexivity |].
  rewrite Hc. destruct k, k'; simpl; try congruence; exact IH.
Qed.

Lemma batchShape_counts l :
  batchShape l ->
  length l = 8 /\ countKind KBinary l = 2 /\ countKind KComplex l = 4 /\
  countKind KUnary l = 2.
Proof.
  intros (bs & cs & us & -> & Hb & HB & Hc & HC & Hu & HU).
  rewrite !length_app, !countKind_app.
  rewrite (countKind_all _ _ HB), (countKind_all _ _ HC), (countKind_all _ _ HU).
  rewrite (countKind_none KBinary KComplex cs), (countKind_none KBinary KUnary us),
    (countKind_none KComplex KBinary bs), (countKind_none KComplex KUnary us),
    (countKind_none KUnary KBinary bs), (countKind_none KUnary KComplex cs)
    by (done || discriminate).
  lia.
Qed.

Lemma always_kind {A} (gen : Gen A) (wrap : A -> Card) (k : Kind) :
  (forall x, kind (wrap x) = k) ->
  always (x ← gen; mret (wrap x)) (fun c => kind c = k).
Proof.
  intros H. eapply always_bind; [apply always_true | intros x _].
  apply always_ret, H.
Qed.

Lemma genHandBatch_shape :
  always genHandBatch (fun out => exists pre, batchShape pre /\ out ≡ₚ pre).
Proof.
  unfold genHandBatch.
  eapply always_bind.
  { apply (always_pushMany _ (fun c => kind c = KBinary) 2).
    apply always_kind. reflexivity. }
  intros c1 (bs & -> & Hb & HB). simpl.
  eapply always_bind.
  { apply (always_pushMany _ (fun c => kind c = KComplex) 4).
    apply always_kind. reflexivity. }
  intros c2 (cs & -> & Hc & HC).
  eapply always_bind.
  { apply (always_pushMany _ (fun c => kind c = KUnary) 2).
    apply always_kind. reflexivity. }
  intros c3 (us & -> & Hu & HU).
  eapply always_mono; [apply shuffleFrom_Permutation |].
  intros out Hout. exists ((bs ++ cs) ++ us). split; [| exact Hout].
  exists bs, cs, us. rewrite <- app_assoc. repeat split; assumption.
Qed.

Lemma genHandBatch_length : always genHandBatch (fun batch => length batch = 8).
Proof.
  intros r. destruct (genHandBatch_shape r) as (pre & Hshape & Hperm).
  rewrite (Permutation_length Hperm). apply (batchShape_counts pre Hshape).
Qed.

(** C9: for every outcome of the random choices, [genHandBatch] returns
    exactly 8 cards: 2 binary-operator cards, 4 complex cards and 2
    unary-operator cards, whatever permutation the shuffle applies. *)
Theorem genHandBatch_composition (r : Rng) :
  let batch := run genHandBatch r in
  length batch = 8 /\
  countKind KBinary batch = 2 /\
  countKind KComplex batch = 4 /\
  countKind KUnary batch = 2.
Proof.
  intros batch. subst batch.
  destruct (genHandBatch_shape r) as (pre & Hshape & Hperm).
  destruct (batchShape_counts pre Hshape) as (Hl & Hb & Hc & Hu).
  rewrite (Permutation_length Hperm).
  rewrite !(countKind_Permutation _ _ _ Hperm). auto.
Qed.

(** ** Deck manager *)

Lemma find_cardHasId id (l : list Card) c :
  List.find (cardHasId id) l = Some c -> In c l /\ card_id c = id.
Proof.
  intros H. apply List.find_some in H as [Hin Hid].
  split; [exact Hin |]. apply String.eqb_eq. exact Hid.
Qed.

Lemma filter_cardLacksId_absent id (l : list Card) :
  ~ In id (map card_id l) -> List.filter (cardLacksId id) l = l.
Proof.
  induction l as [|x l IH]; simpl; intros Hnot; [reflexivity |].
  unfold cardLacksId at 1.
  destruct (String.eqb_spec (card_id x) id) as [Heq|Hne]; simpl.
  - exfalso. apply Hnot. left. exact Heq.
  - f_equal. apply IH. intros Hin. apply Hnot. right. exact Hin.
Qed.

Lemma filter_cardLacksId_length id (l : list Card) c :
  NoDup (map card_id l) ->
  List.find (cardHasId id) l = Some c ->
  length (List.filter (cardLacksId id) l) + 1 = length l.
Proof.
  induction l as [|x l IH]; simpl; intros Hnd Hfind; [discriminate |].
  apply NoDup_cons in Hnd as [Hx Hnd].
  unfold cardHasId at 1 in Hfind. unfold cardLacksId at 1.
  destruct (String.eqb_spec (card_id x) id) as [Heq|Hne]; simpl.
  - rewrite filter_cardLacksId_absent; [lia |].
    rewrite <- Heq. intros Hin. apply Hx, list_elem_of_In, Hin.
  - rewrite <- (IH Hnd Hfind). lia.
Qed.

Lemma placeStockBack_heldCount s : heldCount (placeStockBack s) = heldCount s.
Proof.
  unfold placeStockBack, heldCount.
  destruct (stock s) as [st|] eqn:Hst; simpl; [| rewrite Hst; reflexivity].
  rewrite length_app. simpl. lia.
Qed.

Lemma drawNextBatch_hand s r :
  length (hand (run (drawNextBatch s) r)) = 8 /\
  stock (run (drawNextBatch s) r) = stock s /\
  board (run (drawNextBatch s) r) = board s.
Proof.
  unfold drawNextBatch. rewrite run_bind. unfold run at 1. simpl.
  split; [| split; reflexivity].
  apply genHandBatch_length.
Qed.

Lemma toggleStockFromHand_absent s cardId :
  List.find (cardHasId cardId) (hand s) = None -> toggleStockFromHand s cardId = s.
Proof. intros H. unfold toggleStockFromHand. rewrite H. reflexivity. Qed.

Lemma toggleStockFromHand_heldCount s cardId :
  NoDup (heldIds s) -> heldCount (toggleStockFromHand s cardId) = heldCount s.
Proof.
  unfold heldIds, toggleStockFromHand, heldCount. intros Hnd.
  destruct (List.find (cardHasId cardId) (hand s)) as [c|] eqn:Hfind; [| reflexivity].
  apply NoDup_app in Hnd as (Hhand & Hdisj & _).
  pose proof (filter_cardLacksId_length _ _ _ Hhand Hfind) as Hlen.
  destruct (stock s) as [st|] eqn:Hst.
  - destruct (String.eqb_spec (card_id st) (card_id c)) as [Heq|Hne].
    + exfalso. apply find_cardHasId in Hfind as [Hin _].
      apply (Hdisj (card_id c)).
      * apply list_elem_of_In, in_map, Hin.
      * rewrite Heq. apply list_elem_of_In. left. reflexivity.
    + simpl. rewrite length_app. simpl. lia.
  - simpl. lia.
Qed.

(** C1, as the code has it: [placeStockBack] and [toggleStockFromHand]
    keep the number of hand cards plus one for an occupied stock as it
    was (the ids of the hand cards and the stocked card being pairwise
    distinct), and [drawNextBatch] leaves the stock alone and makes the
    hand exactly 8 cards: after it the sum is 8 with an empty stock and
    9 with a stocked card. *)
Theorem heldCount_after_deck_calls (s : GameState) (cardId : string) (r : Rng) :
  NoDup (heldIds s) ->
  heldCount (toggleStockFromHand s cardId) = heldCount s /\
  heldCount (placeStockBack s) = heldCount s /\
  length (hand (run (drawNextBatch s) r)) = 8 /\
  stock (run (drawNextBatch s) r) = stock s /\
  heldCount (run (drawNextBatch s) r)
    = 8 + match stock s with Some _ => 1 | None => 0 end.
Proof.
  intros Hnd.
  destruct (drawNextBatch_hand s r) as (Hlen & Hstock & _).
  repeat split; auto using toggleStockFromHand_heldCount, placeStockBack_heldCount.
  unfold heldCount. rewrite Hlen, Hstock. reflexivity.
Qed.

Lemma heldCount_after_deck_calls_witness :
  NoDup (heldIds stocked) /\
  heldCount (toggleStockFromHand stocked "c_33") = heldCount stocked /\
  heldCount (placeStockBack stocked) = heldCount stocked /\
  length (hand (run (drawNextBatch stocked) (exampleTape 50))) = 8 /\
  stock (run (drawNextBatch stocked) (exampleTape 50)) = stock stocked /\
  heldCount (run (drawNextBatch stocked) (exampleTape 50))
    = 8 + match stock stocked with Some _ => 1 | None => 0 end.
Proof.
  assert (Hnd : NoDup (heldIds stocked))
    by (apply (bool_decide_unpack _); vm_compute; exact I).
  split; [exact Hnd |].
  exact (heldCount_after_deck_calls stocked "c_33" (exampleTape 50) Hnd).
Defined.

(** ** Operation engine *)

Lemma drawNextBatch_fields s r :
  let s' := run (drawNextBatch s) r in
  board s' = board s /\ stock s' = stock s /\ moves s' = moves s /\
  totalRemoved s' = totalRemoved s /\ gameOver s' = gameOver s /\
  selectedOp s' = None /\ selectedTargets s' = [].
Proof.
  unfold drawNextBatch. rewrite run_bind. unfold run at 1. simpl. tauto.
Qed.

Lemma findIndex_Some {A} (p : A -> bool) (l : list A) i :
  findIndex p l = Some i -> exists x, l !! i = Some x /\ p x = true.
Proof.
  revert i. induction l as [|y l IH]; simpl; intros i H; [discriminate |].
  destruct (p y) eqn:Hp.
  - injection H as <-. exists y. auto.
  - destruct (findIndex p l) as [k|]; simpl in H; [| discriminate].
    injection H as <-. apply (IH k). reflexivity.
Qed.


Lemma onBoard_true s id :
  onBoard s id = true -> exists i, findIndex (hasId id) (board s) = Some i.
Proof.
  unfold onBoard. intros H. apply bool_decide_eq_true in H as [i Hi]. eauto.
Qed.

Lemma onBoard_false s id :
  onBoard s id = false -> findIndex (hasId id) (board s) = None.
Proof.
  unfold onBoard. intros H. apply bool_decide_eq_false in H.
  destruct (findIndex (hasId id) (board s)); [| reflexivity].
  exfalso. apply H. eauto.
Qed.


Lemma performBinary_absent s opCard z1 z2 id1 id2 r :
  onBoard s id1 = false -> onBoard s id2 = false ->
  performBinary s opCard z1 z2 id1 id2 r = (resetSelections s, r).
Proof.
  intros H1 H2. unfold performBinary. rewrite H1, H2. reflexivity.
Qed.

(** C6: when neither chosen operand of a binary operation is on the
    board, [performBinary] only clears the selection: no move is
    counted, no random outcome is consumed (the hand is not redrawn, no
    card is created), and board, hand, stock, counters and the win flag
    are as before. *)
Theorem performBinary_no_board_operand
    (s : GameState) (opCard : BinaryOpCard) (z1 z2 : ComplexCard)
    (id1 id2 : string) (r : Rng) :
  onBoard s id1 = false -> onBoard s id2 = false ->
  let s' := run (performBinary s opCard z1 z2 id1 id2) r in
  performBinary s opCard z1 z2 id1 id2 r = (resetSelections s, r) /\
  selectedOp s' = None /\ selectedTargets s' = [] /\
  board s' = board s /\ hand s' = hand s /\ stock s' = stock s /\
  moves s' = moves s /\ totalRemoved s' = totalRemoved s /\
  gameOver s' = gameOver s.
Proof.
  intros H1 H2. unfold run.
  rewrite (performBinary_absent s opCard z1 z2 id1 id2 r H1 H2). simpl.
  repeat split.
Qed.

Lemma performBinary_applied s opCard z1 z2 id1 id2 :
  onBoard s id1 || onBoard s id2 = true ->
  let left := if onBoard s id1 then z1 else z2 in
  let right := if onBoard s id1 then z2 else z1 in
  let both := onBoard s id1 && onBoard s id2 in
  performBinary s opCard z1 z2 id1 id2 =
    (result ← applyBinary opCard left right;
     let s2 := settleBinary left right result true both (setMoves (fun m => m + 1) s) in
     drawNextBatch (resetSelections (if stockHasId s id1 then setStock None s2 else s2))).
Proof.
  unfold performBinary.
  destruct (onBoard s id1), (onBoard s id2); simpl; intros H;
    try discriminate; reflexivity.
Qed.

Lemma performBinary_fields s opCard z1 z2 id1 id2 r :
  onBoard s id1 || onBoard s id2 = true ->
  let left := if onBoard s id1 then z1 else z2 in
  let right := if onBoard s id1 then z2 else z1 in
  let both := onBoard s id1 && onBoard s id2 in
  let result := run (applyBinary opCard left right) r in
  let s2 := settleBinary left right result true both (setMoves (fun m => m + 1) s) in
  let s' := run (performBinary s opCard z1 z2 id1 id2) r in
  board s' = board s2 /\ moves s' = moves s2 /\ totalRemoved s' = totalRemoved s2 /\
  stock s' = (if stockHasId s id1 then None else stock s) /\
  selectedOp s' = None /\ selectedTargets s' = [].
Proof.
  intros Hon left right both result s2 s'. subst s'.
  rewrite (performBinary_applied _ _ _ _ _ _ Hon), run_bind.
  fold left right both result. cbv zeta. fold s2.
  destruct (drawNextBatch_fields
    (resetSelections (if stockHasId s id1 then setStock None s2 else s2))
    (snd (applyBinary opCard left right r))) as (Hb & Hs & Hm & Ht & _ & Ho & Hts).
  rewrite Hb, Hs, Hm, Ht, Ho, Hts.
  assert (Hstock : stock s2 = stock s).
  { subst s2. unfold settleBinary. repeat case_match; reflexivity. }
  destruct (stockHasId s id1); simpl; rewrite ?Hstock; tauto.
Qed.






Lemma performBinary_no_board_operand_witness :
  (onBoard mounted "c_24" = false /\ onBoard mounted "c_33" = false) /\
  performBinary mounted b_18 c_24 (mkComplex "c_33" 1 4) "c_24" "c_33" (exampleTape 50)
    = (resetSelections mounted, exampleTape 50).
Proof.
  split; [split; reflexivity |].
  exact (proj1 (performBinary_no_board_operand mounted b_18 c_24 (mkComplex "c_33" 1 4)
                  "c_24" "c_33" (exampleTape 50) eq_refl eq_refl)).
Defined.

(** ** Board length *)

Lemma filter_hasId_absent id (l : list ComplexCard) :
  ~ In id (map c_id l) -> List.filter (hasId id) l = [].
Proof.
  induction l as [|x l IH]; simpl; intros Hnot; [reflexivity |].
  unfold hasId at 1.
  destruct (String.eqb_spec (c_id x) id) as [Heq|Hne].
  - exfalso. apply Hnot. left. exact Heq.
  - apply IH. intros Hin. apply Hnot. right. exact Hin.
Qed.

Lemma filter_hasId_NoDup id (l : list ComplexCard) :
  NoDup (map c_id l) -> length (List.filter (hasId id) l) <= 1.
Proof.
  induction l as [|x l IH]; simpl; intros Hnd; [lia |].
  apply NoDup_cons in Hnd as [Hx Hnd].
  unfold hasId at 1.
  destruct (String.eqb_spec (c_id x) id) as [Heq|Hne]; [| auto].
  rewrite filter_hasId_absent; [simpl; lia |].
  rewrite <- Heq. intros Hin. apply Hx, list_elem_of_In, Hin.
Qed.

Lemma filter_lacksId_count id (l : list ComplexCard) :
  length l = length (List.filter (lacksId id) l) + length (List.filter (hasId id) l).
Proof.
  unfold lacksId, hasId.
  induction l as [|x l IH]; simpl; [reflexivity |].
  destruct (String.eqb (c_id x) id); simpl; lia.
Qed.

Lemma filter_lacksId2_count i j (l : list ComplexCard) :
  length l <= length (List.filter (fun c => lacksId i c && lacksId j c) l)
              + length (List.filter (hasId i) l) + length (List.filter (hasId j) l).
Proof.
  unfold lacksId, hasId.
  induction l as [|x l IH]; simpl; [lia |].
  destruct (String.eqb (c_id x) i), (String.eqb (c_id x) j); simpl; lia.
Qed.

Lemma settleUnary_length idx result s1 old :
  board s1 !! idx = Some old ->
  length (board s1) =
    length (board (settleUnary idx result s1)) + (if isReal result then 1 else 0).
Proof.
  intros Hold. unfold settleUnary. destruct (isReal result); simpl.
  - rewrite length_delete by eauto.
    apply lookup_lt_Some in Hold. lia.
  - rewrite length_insert. lia.
Qed.

Lemma replaceLeft_length left right result rb (prev : list ComplexCard) :
  length (replaceLeft left right result rb prev) = length prev \/
  length (replaceLeft left right result rb prev) + 1 = length prev.
Proof.
  unfold replaceLeft.
  destruct (findIndex (hasId (c_id left)) prev) as [li|]; [| auto].
  destruct (rb && negb (String.eqb (c_id right) (c_id left)));
    [| left; apply length_insert].
  destruct (findIndex _ (<[li:=result]> prev)) as [ri|] eqn:Hri;
    [| left; apply length_insert].
  right. apply findIndex_Some in Hri as (x & Hx & _).
  rewrite length_delete by eauto.
  apply lookup_lt_Some in Hx. rewrite length_insert in *. lia.
Qed.

Lemma settleBinary_length_le left right result lb rb s1 :
  length (board (settleBinary left right result lb rb s1)) <= length (board s1).
Proof.
  unfold settleBinary.
  repeat case_match; simpl; try apply List.filter_length_le;
    destruct (replaceLeft_length left right result rb (board s1)); lia.
Qed.

Lemma settleBinary_length left right result lb rb s1 :
  NoDup (map c_id (board s1)) ->
  length (board s1) <= length (board (settleBinary left right result lb rb s1)) + 2.
Proof.
  intros Hnd. unfold settleBinary.
  pose proof (filter_hasId_NoDup (c_id left) _ Hnd).
  pose proof (filter_hasId_NoDup (c_id right) _ Hnd).
  pose proof (filter_lacksId_count (c_id left) (board s1)).
  pose proof (filter_lacksId2_count (c_id left) (c_id right) (board s1)).
  repeat case_match; simpl; try lia;
    destruct (replaceLeft_length left right result rb (board s1)); lia.
Qed.

Lemma performUnary_fields s opCard target r idx :
  findIndex (hasId (c_id target)) (board s) = Some idx ->
  let result := run (applyUnary opCard target) r in
  let s2 := settleUnary idx result (setMoves (fun m => m + 1) s) in
  let s' := run (performUnary s opCard target) r in
  board s' = board s2 /\ moves s' = moves s + 1 /\ totalRemoved s' = totalRemoved s2 /\
  stock s' = (if stockHasId s (u_id opCard) then None else stock s) /\
  selectedOp s' = None /\ selectedTargets s' = [].
Proof.
  intros Hidx result s2 s'. subst s'. unfold performUnary. rewrite Hidx.
  rewrite !run_bind. fold result. cbv zeta. fold s2.
  destruct (drawNextBatch_fields (resetSelections s2)
              (snd (applyUnary opCard target r))) as (Hb & Hs & Hm & Ht & _ & Ho & Hts).
  assert (Hfr : stock s2 = stock s /\ moves s2 = moves s + 1).
  { subst s2. unfold settleUnary. case_match; simpl; auto. }
  destruct Hfr as [Hstock Hmoves].
  unfold run at 1 3 5 7 9 11. simpl.
  destruct (stockHasId s (u_id opCard)); simpl;
    rewrite ?Hb, ?Hs, ?Hm, ?Ht, ?Ho, ?Hts, ?Hstock, ?Hmoves; tauto.
Qed.

Lemma performUnary_absent s opCard target r :
  findIndex (hasId (c_id target)) (board s) = None ->
  run (performUnary s opCard target) r = s.
Proof. intros H. unfold performUnary. rewrite H. reflexivity. Qed.

Lemma performUnary_length s opCard target r :
  let n' := length (board (run (performUnary s opCard target) r)) in
  match findIndex (hasId (c_id target)) (board s) with
  | Some _ =>
      length (board s) =
        n' + (if isReal (run (applyUnary opCard target) r) then 1 else 0)
  | None => n' = length (board s)
  end.
Proof.
  destruct (findIndex (hasId (c_id target)) (board s)) as [idx|] eqn:Hidx; cbv zeta.
  - destruct (performUnary_fields s opCard target r idx Hidx) as (Hb & _).
    rewrite Hb. destruct (findIndex_Some _ _ _ Hidx) as (old & Hold & _).
    apply (settleUnary_length idx _ (setMoves (fun m => m + 1) s) old Hold).
  - rewrite performUnary_absent by exact Hidx. reflexivity.
Qed.

Lemma performBinary_length_le s opCard z1 z2 id1 id2 r :
  length (board (run (performBinary s opCard z1 z2 id1 id2) r)) <= length (board s).
Proof.
  destruct (onBoard s id1 || onBoard s id2) eqn:Hon.
  - destruct (performBinary_fields s opCard z1 z2 id1 id2 r Hon) as (Hb & _).
    rewrite Hb. apply (settleBinary_length_le _ _ _ _ _ (setMoves _ s)).
  - apply orb_false_iff in Hon as [H1 H2].
    unfold run. rewrite (performBinary_absent s opCard z1 z2 id1 id2 r H1 H2).
    simpl. lia.
Qed.

Lemma performBinary_length s opCard z1 z2 id1 id2 r :
  NoDup (map c_id (board s)) ->
  length (board s) <= length (board (run (performBinary s opCard z1 z2 id1 id2) r)) + 2.
Proof.
  intros Hnd. destruct (onBoard s id1 || onBoard s id2) eqn:Hon.
  - destruct (performBinary_fields s opCard z1 z2 id1 id2 r Hon) as (Hb & _).
    rewrite Hb. apply (settleBinary_length _ _ _ _ _ (setMoves _ s)). exact Hnd.
  - apply orb_false_iff in Hon as [H1 H2].
    unfold run. rewrite (performBinary_absent s opCard z1 z2 id1 id2 r H1 H2).
    simpl. lia.
Qed.

(** What a click can do to the board: nothing, or what one of the two
    engines does. *)
Lemma onSelectCard_board (P : list ComplexCard -> Prop) s id r :
  P (board s) ->
  (forall opCard target, P (board (run (performUnary s opCard target) r))) ->
  (forall opCard z1 z2 id1 id2,
      P (board (run (performBinary s opCard z1 z2 id1 id2) r))) ->
  P (board (run (onSelectCard s id) r)).
Proof.
  intros Hs Hu Hb. unfold onSelectCard.
  repeat case_match; try exact Hs; auto.
Qed.

(** C7: an operation never makes the board longer.  After [performUnary],
    [performBinary], and after any click (the only way to apply an
    operation), the board is at most as long as before.  A unary
    operation keeps the length on a non-real result and otherwise drops
    it by 1 or 0; with pairwise distinct ids on the board, a binary
    operation, and so any click, keeps the length or drops it by 1 or
    by 2. *)
Theorem board_length_non_increasing
    (s : GameState) (uCard : UnaryOpCard) (target : ComplexCard)
    (bCard : BinaryOpCard) (z1 z2 : ComplexCard) (id1 id2 id : string) (r : Rng) :
  let n := length (board s) in
  let nu := length (board (run (performUnary s uCard target) r)) in
  let nb := length (board (run (performBinary s bCard z1 z2 id1 id2) r)) in
  let nc := length (board (step (SelectCard id) s r)) in
  (nu <= n /\ nb <= n /\ nc <= n) /\
  (nu = n \/ nu + 1 = n) /\
  (isReal (run (applyUnary uCard target) r) = false -> nu = n) /\
  (NoDup (map c_id (board s)) ->
   (nb = n \/ nb + 1 = n \/ nb + 2 = n) /\ (nc = n \/ nc + 1 = n \/ nc + 2 = n)).
Proof.
  intros n nu nb nc.
  assert (Hu : (nu = n \/ nu + 1 = n) /\
               (isReal (run (applyUnary uCard target) r) = false -> nu = n)).
  { pose proof (performUnary_length s uCard target r) as H. cbv zeta in H.
    fold nu n in H.
    destruct (findIndex (hasId (c_id target)) (board s));
      destruct (isReal (run (applyUnary uCard target) r)); split; intros; lia. }
  destruct Hu as [Hu Hu'].
  pose proof (performBinary_length_le s bCard z1 z2 id1 id2 r) as Hb. fold nb n in Hb.
  assert (Hc : nc <= n).
  { subst nc. unfold step, checkWin, handle. 
    assert (length (board (run (onSelectCard s id) r)) <= n).
    { apply (onSelectCard_board (fun bd => length bd <= n)); [subst n; lia | |].
      - intros u t. pose proof (performUnary_length s u t r) as H. cbv zeta in H.
        repeat case_match; subst n; lia.
      - intros. apply performBinary_length_le. }
    case_match; simpl; assumption. }
  split; [lia |]. split; [exact Hu |]. split; [exact Hu' |].
  intros Hnd.
  pose proof (performBinary_length s bCard z1 z2 id1 id2 r Hnd) as Hb2. fold nb n in Hb2.
  split; [lia |].
  assert (n <= nc + 2); [| lia].
  subst nc. unfold step, checkWin, handle.
  assert (n <= length (board (run (onSelectCard s id) r)) + 2).
  { apply (onSelectCard_board (fun bd => n <= length bd + 2)); [subst n; lia | |].
    - intros u t. pose proof (performUnary_length s u t r) as H. cbv zeta in H.
      repeat case_match; subst n; lia.
    - intros. apply performBinary_length. exact Hnd. }
  case_match; simpl; assumption.
Qed.

Lemma board_length_non_increasing_witness :
  NoDup (map c_id (board mounted)) /\
  let n := length (board mounted) in
  let nb := length (board (run (performBinary mounted b_18 c_24 c_02 "c_24" "c_02")
                               (exampleTape 50))) in
  nb <= n /\ (nb = n \/ nb + 1 = n \/ nb + 2 = n).
Proof.
  assert (Hnd : NoDup (map c_id (board mounted)))
    by (apply (bool_decide_unpack _); vm_compute; exact I).
  destruct (board_length_non_increasing mounted (mkUnary "u_36" OpMulI) c_02 b_18
              c_24 c_02 "c_24" "c_02" "c_02" (exampleTape 50))
    as ((_ & Hle & _) & _ & _ & Hdrop).
  split; [exact Hnd |]. split; [exact Hle | exact (proj1 (Hdrop Hnd))].
Defined.

(** ** The board holds no real value *)

Lemma isReal_false z : isReal z = false -> nonReal z.
Proof. unfold isReal, nonReal. apply Z.eqb_neq. Qed.

Lemma Forall_List_filter {A} (P : A -> Prop) (p : A -> bool) (l : list A) :
  Forall P l -> Forall P (List.filter p l).
Proof.
  rewrite !Forall_forall. intros H x Hx.
  apply list_elem_of_In, List.filter_In in Hx as [Hx _].
  apply H, list_elem_of_In, Hx.
Qed.

Lemma settleUnary_nonReal idx result s1 :
  Forall nonReal (board s1) -> Forall nonReal (board (settleUnary idx result s1)).
Proof.
  intros H. unfold settleUnary. destruct (isReal result) eqn:Hreal; simpl.
  - apply Forall_delete, H.
  - apply Forall_insert; [exact H | apply isReal_false, Hreal].
Qed.

Lemma settleBinary_nonReal left right result lb rb s1 :
  Forall nonReal (board s1) ->
  Forall nonReal (board (settleBinary left right result lb rb s1)).
Proof.
  intros H. unfold settleBinary. destruct (isReal result) eqn:Hreal.
  - case_match; simpl; apply Forall_List_filter, H.
  - assert (Hrep : Forall nonReal (replaceLeft left right result rb (board s1))).
    { unfold replaceLeft. apply isReal_false in Hreal.
      repeat case_match; try apply Forall_delete; try apply Forall_insert; assumption. }
    case_match; simpl; exact Hrep.
Qed.

Lemma performUnary_nonReal s opCard target r :
  Forall nonReal (board s) ->
  Forall nonReal (board (run (performUnary s opCard target) r)).
Proof.
  intros H. destruct (findIndex (hasId (c_id target)) (board s)) as [idx|] eqn:Hidx.
  - destruct (performUnary_fields s opCard target r idx Hidx) as (Hb & _).
    rewrite Hb. apply settleUnary_nonReal. exact H.
  - rewrite performUnary_absent by exact Hidx. exact H.
Qed.

Lemma performBinary_nonReal s opCard z1 z2 id1 id2 r :
  Forall nonReal (board s) ->
  Forall nonReal (board (run (performBinary s opCard z1 z2 id1 id2) r)).
Proof.
  intros H. destruct (onBoard s id1 || onBoard s id2) eqn:Hon.
  - destruct (performBinary_fields s opCard z1 z2 id1 id2 r Hon) as (Hb & _).
    rewrite Hb. apply settleBinary_nonReal. exact H.
  - apply orb_false_iff in Hon as [H1 H2].
    unfold run. rewrite (performBinary_absent s opCard z1 z2 id1 id2 r H1 H2).
    simpl. exact H.
Qed.

Lemma checkWin_board s : board (checkWin s) = board s.
Proof. unfold checkWin. case_match; reflexivity. Qed.

Lemma toggleStockFromHand_board s cardId : board (toggleStockFromHand s cardId) = board s.
Proof. unfold toggleStockFromHand. repeat case_match; reflexivity. Qed.

Lemma placeStockBack_board s : board (placeStockBack s) = board s.
Proof. unfold placeStockBack. case_match; reflexivity. Qed.

Lemma resetGame_board s r : board (run (resetGame s) r) = run (genInitialBoard 6) r.
Proof. unfold resetGame. rewrite !run_bind. reflexivity. Qed.

Lemma mount_board r : board (run mount r) = run (genInitialBoard 6) r.
Proof.
  unfold mount. rewrite !run_bind. unfold run at 1. simpl.
  rewrite ?checkWin_board. reflexivity.
Qed.

Lemma step_nonReal e s r :
  Forall nonReal (board s) -> Forall nonReal (board (step e s r)).
Proof.
  intros H. unfold step. rewrite checkWin_board. destruct e; cbn [handle].
  - apply (onSelectCard_board (Forall nonReal)); [exact H | |]; intros.
    + apply performUnary_nonReal, H.
    + apply performBinary_nonReal, H.
  - change (Forall nonReal (board (toggleStockFromHand s cardId))).
    rewrite toggleStockFromHand_board. exact H.
  - destruct (drawNextBatch_fields s r) as (Hb & _). rewrite Hb. exact H.
  - change (Forall nonReal (board (placeStockBack s))).
    rewrite placeStockBack_board. exact H.
  - rewrite resetGame_board. apply genInitialBoard_nonreal.
Qed.

(** C8: the board never holds a real value.  [genNonRealComplex] only
    makes cards with [b <> 0], and in every state the component can
    reach (mounting, then any sequence of events, whatever the random
    source gives) every board card has [b <> 0]: an operation whose
    result is real removes the operand instead of storing the result. *)
Theorem board_never_real (s : GameState) :
  reachable s ->
  (forall r, b (run genNonRealComplex r) <> 0%Z) /\
  Forall (fun z => b z <> 0%Z) (board s).
Proof.
  intros Hs. split; [exact genNonRealComplex_nonreal |].
  induction Hs as [r | s e r _ IH].
  - rewrite mount_board. apply genInitialBoard_nonreal.
  - apply step_nonReal, IH.
Qed.

Lemma played_reachable : reachable played.
Proof.
  unfold played, picked, mounted. repeat apply reachable_step. apply reachable_mount.
Defined.

Lemma board_never_real_witness :
  reachable played /\ Forall (fun z => b z <> 0%Z) (board played).
Proof.
  split; [exact played_reachable |].
  exact (proj2 (board_never_real played played_reachable)).
Defined.

(** ** Clicking the sole target again *)

Lemma performUnary_selectedOp s opCard target r :
  run (performUnary s opCard target) r = s \/
  selectedOp (run (performUnary s opCard target) r) = None.
Proof.
  destruct (findIndex (hasId (c_id target)) (board s)) as [idx|] eqn:Hidx.
  - right. apply (performUnary_fields s opCard target r idx Hidx).
  - left. apply performUnary_absent, Hidx.
Qed.

Lemma performBinary_selectedOp s opCard z1 z2 id1 id2 r :
  selectedOp (run (performBinary s opCard z1 z2 id1 id2) r) = None.
Proof.
  destruct (onBoard s id1 || onBoard s id2) eqn:Hon.
  - apply (performBinary_fields s opCard z1 z2 id1 id2 r Hon).
  - apply orb_false_iff in Hon as [H1 H2].
    unfold run. rewrite (performBinary_absent s opCard z1 z2 id1 id2 r H1 H2).
    reflexivity.
Qed.

(** The four ways a click can end, as far as the selection goes. *)
Lemma onSelectCard_selection s id r :
  let s' := run (onSelectCard s id) r in
  s' = s \/ selectedOp s' = None \/ selectedTargets s' = [] \/
  (s' = setSelectedTargets (fun _ => [id]) s /\
   List.find (hasId id) (board s) = None /\
   exists z, findCardById s id = Some (Complex z)).
Proof.
  cbv zeta. unfold onSelectCard.
  destruct (findCardById s id) as [[z|o|o]|] eqn:Hcard; auto.
  destruct (selectedOp s) as [[zz|o|u]|] eqn:Hop.
  - destruct (selectedTargets s) as [|firstId [|]]; destruct (List.find (hasId id) (board s)) eqn:Hb;
      auto; try (right; right; right; eauto; fail);
      destruct (String.eqb firstId id); auto;
      destruct (findCardById s firstId) as [[]|]; auto using performBinary_selectedOp.
  - destruct (selectedTargets s) as [|firstId [|]]; destruct (List.find (hasId id) (board s)) eqn:Hb;
      auto; try (right; right; right; eauto; fail);
      destruct (String.eqb firstId id); auto;
      destruct (findCardById s firstId) as [[]|]; auto using performBinary_selectedOp.
  - destruct (List.find (hasId id) (board s)); auto.
    destruct (performUnary_selectedOp s u c r); auto.
  - destruct (List.find (hasId id) (board s)); auto.
Qed.

Lemma find_app_l {A} (p : A -> bool) (l1 l2 : list A) x :
  List.find p l1 = Some x -> List.find p (l1 ++ l2) = Some x.
Proof.
  induction l1 as [|y l1 IH]; simpl; [discriminate |].
  destruct (p y); auto.
Qed.

Lemma find_app_r {A} (p : A -> bool) (l1 l2 : list A) :
  List.find p l1 = None -> List.find p (l1 ++ l2) = List.find p l2.
Proof.
  induction l1 as [|y l1 IH]; simpl; [reflexivity |].
  destruct (p y); [discriminate | auto].
Qed.

Lemma placeStockBack_targetsHeld s : targetsHeld s -> targetsHeld (placeStockBack s).
Proof.
  unfold placeStockBack. destruct (stock s) as [st|] eqn:Hst; [| auto].
  intros Inv Hop t Ht. destruct (Inv Hop t Ht) as (Hb & z & Hz).
  split; [exact Hb |]. exists z.
  revert Hz. unfold findCardById. simpl. rewrite Hb, Hst.
  destruct (List.find (cardHasId t) (hand s)) as [c|] eqn:Hh.
  - rewrite (find_app_l _ _ _ _ Hh). auto.
  - rewrite (find_app_r _ _ _ Hh). simpl. unfold cardHasId.
    destruct (String.eqb (card_id st) t); auto.
Qed.

Lemma toggleStockFromHand_targetsHeld s cardId :
  targetsHeld s -> targetsHeld (toggleStockFromHand s cardId).
Proof.
  unfold toggleStockFromHand.
  destruct (List.find (cardHasId cardId) (hand s)) as [c|] eqn:Hfind; [| auto].
  destruct (stock s) as [st|] eqn:Hst.
  - destruct (String.eqb_spec (card_id st) (card_id c)) as [Heq|Hne].
    + intros Inv Hop t Ht. destruct (Inv Hop t Ht) as (Hb & z & Hz).
      split; [exact Hb |]. exists z.
      revert Hz. unfold findCardById. simpl. rewrite Hb, Hst.
      destruct (List.find (cardHasId t) (hand s)) as [c'|] eqn:Hh; [auto |].
      destruct (String.eqb_spec (card_id st) t) as [Ht'|]; [| discriminate].
      apply find_cardHasId in Hfind as [Hin Hid].
      pose proof (List.find_none _ _ Hh c Hin) as Hf.
      unfold cardHasId in Hf. apply String.eqb_neq in Hf. congruence.
    + intros _ Hop. exfalso. apply Hop. reflexivity.
  - intros _ Hop. exfalso. apply Hop. reflexivity.
Qed.

Lemma checkWin_targetsHeld s : targetsHeld s -> targetsHeld (checkWin s).
Proof. unfold checkWin. case_match; auto. Qed.

Lemma step_targetsHeld e s r : targetsHeld s -> targetsHeld (step e s r).
Proof.
  intros Inv. unfold step. apply checkWin_targetsHeld. destruct e; cbn [handle].
  - destruct (onSelectCard_selection s id r) as [H|[H|[H|(H & Hb & z & Hz)]]].
    + rewrite H. exact Inv.
    + intros Hop. contradiction.
    + intros _ t Ht. rewrite H in Ht. destruct Ht.
    + rewrite H. intros _ t [<-|[]]. split; [exact Hb |]. exists z. exact Hz.
  - apply toggleStockFromHand_targetsHeld, Inv.
  - intros Hop. exfalso. apply Hop. apply (drawNextBatch_fields s r).
  - apply placeStockBack_targetsHeld, Inv.
  - intros Hop. exfalso. apply Hop. unfold resetGame. rewrite !run_bind. reflexivity.
Qed.

Lemma reachable_targetsHeld s : reachable s -> targetsHeld s.
Proof.
  induction 1 as [r | s e r _ IH].
  - intros Hop. exfalso. apply Hop. unfold mount. rewrite !run_bind.
    unfold run at 1. simpl. unfold checkWin. try case_match; reflexivity.
  - apply step_targetsHeld, IH.
Qed.

Lemma checkWin_idem s : checkWin (checkWin s) = checkWin s.
Proof.
  unfold checkWin.
  destruct ((length (board s) =? 0)%nat && negb (gameOver s)) eqn:H; simpl.
  - rewrite andb_false_r. reflexivity.
  - rewrite H. reflexivity.
Qed.

Lemma reachable_checkWin s : reachable s -> checkWin s = s.
Proof.
  destruct 1 as [r | s e r _].
  - unfold mount. rewrite !run_bind. unfold run at 1 3. simpl. apply checkWin_idem.
  - unfold step. apply checkWin_idem.
Qed.

(** C10: in a reachable state where a binary operator is active and the
    target list holds exactly one id, clicking the card with that id
    again changes nothing: the handler returns without an update (and
    without consuming a random outcome), so the whole state, operator
    and sole target included, is as before. *)
Theorem onSelectCard_same_target_ignored
    (s : GameState) (opCard : BinaryOpCard) (id : string) (r : Rng) :
  reachable s ->
  selectedOp s = Some (Binary opCard) ->
  selectedTargets s = [id] ->
  onSelectCard s id r = (s, r) /\ step (SelectCard id) s r = s.
Proof.
  intros Hreach Hop Hts.
  assert (Hrun : onSelectCard s id r = (s, r)).
  { destruct (reachable_targetsHeld s Hreach) with (t := id) as (_ & z & Hz).
    - rewrite Hop. discriminate.
    - rewrite Hts. left. reflexivity.
    - unfold onSelectCard. rewrite Hz, Hop, Hts, String.eqb_refl. reflexivity. }
  split; [exact Hrun |].
  unfold step, run. cbn [handle]. rewrite Hrun. simpl.
  apply reachable_checkWin, Hreach.
Qed.

Lemma picked_reachable : reachable picked.
Proof. unfold picked, mounted. repeat apply reachable_step. apply reachable_mount. Defined.

Lemma onSelectCard_same_target_ignored_witness :
  (reachable picked /\ selectedOp picked = Some (Binary b_18) /\
   selectedTargets picked = ["c_24"]) /\
  onSelectCard picked "c_24" (exampleTape 50) = (picked, exampleTape 50) /\
  step (SelectCard "c_24") picked (exampleTape 50) = picked.
Proof.
  split; [split; [exact picked_reachable | split; reflexivity] |].
  exact (onSelectCard_same_target_ignored picked b_18 "c_24" (exampleTape 50)
           picked_reachable eq_refl eq_refl).
Defined.

(** ** Worked games: the scenarios of the specification *)

(** [(1 + i)(1 - i) = 2], a real value. *)
Example mul_to_real (r : Rng) :
  value (run (mul (mkComplex "x" 1 1) (mkComplex "y" 1 (-1))) r) = (2, 0)%Z /\
  isReal (run (mul (mkComplex "x" 1 1) (mkComplex "y" 1 (-1))) r) = true.
Proof. split; reflexivity. Qed.

(** Multiplying the last board card [3i] by [i] gives [-3]: the card
    leaves the board, one move and one removal are counted, and the win
    effect sets [gameOver]. *)
Example unary_clears_the_board :
  let s' := step (SelectCard "c_z") lastCard (exampleTape 50) in
  board s' = [] /\ moves s' = 1 /\ totalRemoved s' = 1 /\ gameOver s' = true /\
  length (hand s') = 8 /\ selectedOp s' = None.
Proof. repeat split. Qed.

(** The binary operation on a board card and a hand card: the board card
    becomes [left], the difference is [0], only the board card goes. *)
Example binary_removes_board_operand :
  map c_id (board mounted) = ["c_02"; "c_05"; "c_08"; "c_11"; "c_14"; "c_17"] /\
  selectedTargets picked = ["c_24"] /\
  map c_id (board played) = ["c_05"; "c_08"; "c_11"; "c_14"; "c_17"] /\
  moves played = 1 /\ totalRemoved played = 1 /\ gameOver played = false.
Proof. repeat split. Qed.

(** A binary operator refuses a board card as its first pick: the whole
    selection is reset. *)
Example board_card_first_resets :
  let s := step (SelectCard "b_18") mounted (exampleTape 50) in
  let s' := step (SelectCard "c_02") s (exampleTape 50) in
  selectedOp s = Some (Binary b_18) /\
  selectedOp s' = None /\ selectedTargets s' = [] /\ board s' = board mounted /\
  moves s' = 0.
Proof. repeat split. Qed.

(** Stock, then swap: the hand keeps 7 cards, the previously stocked card
    returns at the end of the hand. *)
Example stock_swap :
  let s' := toggleStockFromHand stocked "c_33" in
  length (hand stocked) = 7 /\ stock stocked = Some (Complex c_24) /\
  length (hand s') = 7 /\ stock s' = Some (Complex (mkComplex "c_33" 1 4)) /\
  last (hand s') = Some (Complex c_24).
Proof. repeat split. Qed.

(** ** Worked games: the stock *)

Lemma stocked_reachable : reachable stocked.
Proof. unfold stocked, mounted. repeat apply reachable_step. apply reachable_mount. Defined.

(** C1, as stated, fails: once a card is stocked the sum is 8 (7 hand
    cards and the stock), and the next [drawNextBatch] deals 8 new hand
    cards next to the stocked one. *)
Lemma drawNextBatch_with_stock_holds_nine :
  reachable stocked /\
  heldCount stocked = 8 /\
  heldCount (run (drawNextBatch stocked) (exampleTape 50)) = 9 /\
  heldCount (step DrawNextBatch stocked (exampleTape 50)) <> 8.
Proof.
  split; [exact stocked_reachable |].
  split; [reflexivity |]. split; [reflexivity |].
  vm_compute. discriminate.
Qed.

(** C2, as stated, fails: with [c_24] in the stock (and so no longer in
    the hand), [toggleStockFromHand "c_24"] returns at the hand lookup:
    the card stays in the stock and the hand keeps its 7 cards. *)
Lemma toggleStockFromHand_ignores_stocked_card :
  reachable stocked /\
  stock stocked = Some (Complex c_24) /\
  length (hand stocked) = 7 /\
  toggleStockFromHand stocked "c_24" = stocked.
Proof.
  split; [exact stocked_reachable |]. repeat split.
Qed.

Lemma find_cardHasId_absent id (l : list Card) :
  ~ In id (map card_id l) -> List.find (cardHasId id) l = None.
Proof.
  induction l as [|x l IH]; simpl; intros Hnot; [reflexivity |].
  unfold cardHasId at 1.
  destruct (String.eqb_spec (card_id x) id) as [Heq|Hne].
  - exfalso. apply Hnot. left. exact Heq.
  - apply IH. intros Hin. apply Hnot. right. exact Hin.
Qed.

(** C2, as the code has it: [toggleStockFromHand] is for hand cards
    only.  With an occupied stock whose card is not in the hand (stocking
    took it out of the hand), calling it with the stocked card's id
    changes nothing.  The stocked card is moved back to the end of the
    hand, and the stock cleared, by [placeStockBack]. *)
Theorem toggleStockFromHand_is_for_hand_cards (s : GameState) (st : Card) :
  stock s = Some st ->
  ~ In (card_id st) (map card_id (hand s)) ->
  toggleStockFromHand s (card_id st) = s /\
  hand (placeStockBack s) = hand s ++ [st] /\
  stock (placeStockBack s) = None /\
  board (placeStockBack s) = board s.
Proof.
  intros Hst Hnot. split.
  - apply toggleStockFromHand_absent, find_cardHasId_absent, Hnot.
  - unfold placeStockBack. rewrite Hst. repeat split.
Qed.

Lemma toggleStockFromHand_is_for_hand_cards_witness :
  (stock stocked = Some (Complex c_24) /\
   ~ In (card_id (Complex c_24)) (map card_id (hand stocked))) /\
  toggleStockFromHand stocked "c_24" = stocked /\
  last (hand (placeStockBack stocked)) = Some (Complex c_24) /\
  stock (placeStockBack stocked) = None.
Proof.
  assert (Hnot : ~ In (card_id (Complex c_24)) (map card_id (hand stocked))).
  { rewrite <- list_elem_of_In. apply (bool_decide_unpack _). vm_compute. exact I. }
  destruct (toggleStockFromHand_is_for_hand_cards stocked (Complex c_24) eq_refl Hnot)
    as (H1 & H2 & H3 & _).
  split; [split; [reflexivity | exact Hnot] |].
  split; [exact H1 |]. split; [rewrite H2; apply last_snoc | exact H3].
Defined.

(** C3 on the code: the stock is cleared according to the id of the
    first operand, not of the operator.  With the operator [b_18]
    stocked and used, the stock still holds it after the operation; with
    the complex card [c_24] stocked and picked as first operand of the
    hand operator [b_18], the operation empties the stock. *)
Lemma performBinary_stock_follows_first_operand :
  (stock operatorStocked = Some (Binary b_18) /\
   selectedOp operatorStocked = Some (Binary b_18) /\
   moves (step (SelectCard "c_02") operatorStocked (exampleTape 50)) = 1 /\
   stock (step (SelectCard "c_02") operatorStocked (exampleTape 50))
     = Some (Binary b_18)) /\
  (stock operandStocked = Some (Complex c_24) /\
   selectedOp operandStocked = Some (Binary b_18) /\
   moves (step (SelectCard "c_02") operandStocked (exampleTape 50)) = 1 /\
   stock (step (SelectCard "c_02") operandStocked (exampleTape 50)) = None).
Proof. repeat split. Qed.

(** * Further properties of the code *)

(** ** Looking cards up *)

Lemma find_hasId id (l : list ComplexCard) c :
  List.find (hasId id) l = Some c -> In c l /\ c_id c = id.
Proof.
  intros H. apply List.find_some in H as [Hin Hid].
  split; [exact Hin |]. apply String.eqb_eq. exact Hid.
Qed.

Lemma find_cardHasId_None id (l : list Card) :
  List.find (cardHasId id) l = None <-> ~ In id (map card_id l).
Proof.
  induction l as [|x l IH]; simpl; [tauto |].
  unfold cardHasId at 1.
  destruct (String.eqb_spec (card_id x) id) as [Heq|Hne].
  - split; [discriminate | intros H; exfalso; apply H; left; exact Heq].
  - rewrite IH. tauto.
Qed.

Lemma find_hasId_None id (l : list ComplexCard) :
  List.find (hasId id) l = None <-> ~ In id (map c_id l).
Proof.
  induction l as [|x l IH]; simpl; [tauto |].
  unfold hasId at 1.
  destruct (String.eqb_spec (c_id x) id) as [Heq|Hne].
  - split; [discriminate | intros H; exfalso; apply H; left; exact Heq].
  - rewrite IH. tauto.
Qed.

Lemma findIndex_find {A} (p : A -> bool) (l : list A) :
  findIndex p l = None <-> List.find p l = None.
Proof.
  induction l as [|x l IH]; simpl; [tauto |].
  destruct (p x); [split; discriminate |].
  destruct (findIndex p l) as [k|]; simpl.
  - split; [discriminate |]. intros H. apply IH in H. discriminate.
  - split; [| reflexivity]. intros _. apply IH. reflexivity.
Qed.

Lemma onBoard_find s id :
  onBoard s id = false <-> List.find (hasId id) (board s) = None.
Proof.
  rewrite <- findIndex_find. split; [apply onBoard_false |].
  intros H. unfold onBoard. rewrite H. apply bool_decide_eq_false.
  intros [x Hx]. discriminate.
Qed.

(** X1: [findCardById] returns a card that carries the requested id, and
    looks in the hand first, then on the board, then in the stock: a
    board card is returned only when no hand card has the id, the
    stocked card only when neither hand nor board has it.  It returns
    nothing exactly when no card on the table carries the id. *)
Theorem findCardById_spec (s : GameState) (id : string) :
  (forall c, findCardById s id = Some c ->
     card_id c = id /\
     (In c (hand s) \/
      (~ In id (map card_id (hand s)) /\ exists z, c = Complex z /\ In z (board s)) \/
      (~ In id (map card_id (hand s)) /\ ~ In id (map c_id (board s)) /\
       stock s = Some c))) /\
  (findCardById s id = None <-> ~ In id (tableIds s)).
Proof.
  unfold findCardById, tableIds. split.
  - intros c.
    destruct (List.find (cardHasId id) (hand s)) as [h|] eqn:Hh.
    { intros [= <-]. apply find_cardHasId in Hh as [Hin Hid]. auto. }
    apply find_cardHasId_None in Hh.
    destruct (List.find (hasId id) (board s)) as [z|] eqn:Hb.
    { intros [= <-]. apply find_hasId in Hb as [Hin Hid]. simpl. eauto 10. }
    apply find_hasId_None in Hb.
    destruct (stock s) as [st|]; [| discriminate].
    destruct (String.eqb_spec (card_id st) id); [| discriminate].
    intros [= <-]. auto 10.
  - rewrite !in_app_iff.
    destruct (List.find (cardHasId id) (hand s)) as [h|] eqn:Hh.
    { apply find_cardHasId in Hh as [Hin Hid].
      split; [discriminate |]. intros H. exfalso. apply H. left.
      rewrite <- Hid. apply in_map, Hin. }
    apply find_cardHasId_None in Hh.
    destruct (List.find (hasId id) (board s)) as [z|] eqn:Hb.
    { apply find_hasId in Hb as [Hin Hid].
      split; [discriminate |]. intros H. exfalso. apply H. right. left.
      rewrite <- Hid. apply in_map, Hin. }
    apply find_hasId_None in Hb.
    destruct (stock s) as [st|]; [| simpl; tauto].
    destruct (String.eqb_spec (card_id st) id) as [Heq|Hne].
    + split; [discriminate |]. intros H. exfalso. apply H. right. right. left. exact Heq.
    + simpl. split; [| reflexivity]. intros _. intuition.
Qed.

(** ** The outcomes of a click *)

Lemma onSelectCard_outcome s id r : clickOutcome s id r (run (onSelectCard s id) r).
Proof.
  unfold onSelectCard.
  destruct (findCardById s id) as [[z|o|o]|] eqn:Hcard;
    try apply click_ignored;
    try (eapply click_operator; [exact Hcard | reflexivity]).
  destruct (selectedOp s) as [[zz|o|u]|] eqn:Hop.
  - destruct (selectedTargets s) as [|firstId [|]] eqn:Hts;
      destruct (List.find (hasId id) (board s)) eqn:Hb;
      try (apply click_reset; rewrite Hop; discriminate);
      try (eapply click_first; eauto; discriminate).
    all: destruct (String.eqb_spec firstId id) as [Heq|Hne]; [apply click_ignored |].
    all: destruct (findCardById s firstId) as [[]|] eqn:Hfirst;
      try apply click_ignored;
      try (apply click_reset; rewrite Hop; discriminate).
    all: eapply click_second; eauto; discriminate.
  - destruct (selectedTargets s) as [|firstId [|]] eqn:Hts;
      destruct (List.find (hasId id) (board s)) eqn:Hb;
      try (apply click_reset; rewrite Hop; discriminate);
      try (eapply click_first; eauto; discriminate).
    all: destruct (String.eqb_spec firstId id) as [Heq|Hne]; [apply click_ignored |].
    all: destruct (findCardById s firstId) as [[]|] eqn:Hfirst;
      try apply click_ignored;
      try (apply click_reset; rewrite Hop; discriminate).
    all: eapply click_second; eauto; discriminate.
  - destruct (List.find (hasId id) (board s)) eqn:Hb; [| apply click_ignored].
    eapply click_unary; eauto.
  - destruct (List.find (hasId id) (board s)) eqn:Hb; [apply click_ignored |].
    eapply click_toggle; eauto.
Qed.

(** ** What the factory deals *)

Lemma always_and {A} (m : Gen A) (P Q : A -> Prop) :
  always m P -> always m Q -> always m (fun x => P x /\ Q x).
Proof. intros HP HQ r. split; [apply HP | apply HQ]. Qed.

Lemma COMPLEX_RANGE_bounds : Forall (fun x => (-5 <= x <= 5)%Z) COMPLEX_RANGE.
Proof. unfold COMPLEX_RANGE. repeat constructor; lia. Qed.

Lemma COMPLEX_RANGE_NON0_bounds :
  Forall (fun x => (-5 <= x <= 5)%Z /\ x <> 0%Z) COMPLEX_RANGE_NON0.
Proof. unfold COMPLEX_RANGE_NON0. repeat constructor; lia. Qed.

Lemma genComplex_inRange : always genComplex inRange.
Proof.
  unfold genComplex.
  eapply always_bind; [apply (always_sample 0%Z COMPLEX_RANGE _ ltac:(discriminate) COMPLEX_RANGE_bounds) |].
  intros a' Ha.
  eapply always_bind; [apply (always_sample 0%Z COMPLEX_RANGE _ ltac:(discriminate) COMPLEX_RANGE_bounds) |].
  intros b' Hb.
  eapply always_bind; [apply always_true | intros i _].
  apply always_ret. split; assumption.
Qed.

Lemma genNonRealComplex_inRange :
  always genNonRealComplex (fun z => inRange z /\ nonReal z).
Proof.
  unfold genNonRealComplex.
  eapply always_bind; [apply (always_sample 0%Z COMPLEX_RANGE _ ltac:(discriminate) COMPLEX_RANGE_bounds) |].
  intros a' Ha.
  eapply always_bind;
    [apply (always_sample 0%Z COMPLEX_RANGE_NON0 _ ltac:(discriminate) COMPLEX_RANGE_NON0_bounds) |].
  intros b' [Hb Hb0].
  eapply always_bind; [apply always_true | intros i _].
  apply always_ret. split; [split |]; assumption.
Qed.

Lemma complexCards_app l1 l2 :
  complexCards (l1 ++ l2) = complexCards l1 ++ complexCards l2.
Proof. unfold complexCards. apply omap_app. Qed.

Lemma complexCards_Permutation l1 l2 :
  l1 ≡ₚ l2 -> complexCards l1 ≡ₚ complexCards l2.
Proof. unfold complexCards. intros H. by apply omap_Permutation. Qed.

Lemma complexCards_none k (l : list Card) :
  k <> KComplex -> Forall (fun c => kind c = k) l -> complexCards l = [].
Proof.
  intros Hk. induction 1 as [|c l Hc _ IH]; [reflexivity |].
  unfold complexCards in *. simpl. destruct c; simpl in *; subst k;
    [contradiction | exact IH | exact IH].
Qed.

Lemma genHandBatch_inRange :
  always genHandBatch (fun batch => Forall inRange (complexCards batch)).
Proof.
  unfold genHandBatch.
  eapply always_bind.
  { apply (always_pushMany _ (fun c => kind c = KBinary) 2).
    apply always_kind. reflexivity. }
  intros c1 (bs & -> & _ & HB). simpl.
  eapply always_bind.
  { apply (always_pushMany _ (fun c => Forall inRange (complexCards [c])) 4).
    eapply always_bind; [apply genComplex_inRange | intros z Hz].
    apply always_ret. unfold complexCards. simpl. auto. }
  intros c2 (cs & -> & _ & HC).
  eapply always_bind.
  { apply (always_pushMany _ (fun c => kind c = KUnary) 2).
    apply always_kind. reflexivity. }
  intros c3 (us & -> & _ & HU).
  eapply always_mono; [apply shuffleFrom_Permutation |].
  intros out Hout. simpl in Hout.
  rewrite (complexCards_Permutation _ _ Hout), !complexCards_app.
  rewrite (complexCards_none KBinary bs), (complexCards_none KUnary us)
    by (done || discriminate).
  simpl. rewrite app_nil_r.
  clear -HC. induction HC as [|c cs Hc _ IH]; [constructor |].
  change (c :: cs) with ([c] ++ cs). rewrite complexCards_app.
  apply Forall_app. split; assumption.
Qed.

Lemma genInitialBoard_length n : always (genInitialBoard n) (fun bd => length bd = n).
Proof.
  eapply always_mono.
  - apply (always_pushMany _ _ n (always_true genNonRealComplex)).
  - intros out (xs & -> & Hlen & _). exact Hlen.
Qed.

(** X2: the complex cards the factory makes have both coefficients between
    -5 and 5; board cards also have a non-zero imaginary part; an
    initial board of [n] has [n] cards. *)
Theorem factory_ranges (n : nat) (r : Rng) :
  inRange (run genComplex r) /\
  (inRange (run genNonRealComplex r) /\ b (run genNonRealComplex r) <> 0%Z) /\
  (length (run (genInitialBoard n) r) = n /\
   Forall (fun z => inRange z /\ b z <> 0%Z) (run (genInitialBoard n) r)) /\
  Forall inRange (complexCards (run genHandBatch r)).
Proof.
  split; [apply genComplex_inRange |].
  split; [apply genNonRealComplex_inRange |].
  split; [| apply genHandBatch_inRange].
  split; [apply genInitialBoard_length |].
  eapply always_mono.
  - apply (always_pushMany _ _ n genNonRealComplex_inRange).
  - intros out (xs & -> & _ & Hxs). exact Hxs.
Qed.

(** ** Mounting and resetting *)

Lemma mount_unfold r :
  run mount r =
    mkState (run (genInitialBoard 6) r)
            (run genHandBatch (snd (genInitialBoard 6 r))) None None [] 0 0 false.
Proof.
  unfold mount. rewrite !run_bind. unfold run at 1. cbn [mret gen_ret fst].
  unfold checkWin. cbn [board gameOver].
  rewrite (genInitialBoard_length 6 r). reflexivity.
Qed.

Lemma resetGame_unfold s r :
  run (resetGame s) r =
    mkState (run (genInitialBoard 6) r)
            (run genHandBatch (snd (genInitialBoard 6 r))) None None [] 0 0 false.
Proof. unfold resetGame. rewrite !run_bind. reflexivity. Qed.

(** X3: [resetGame] forgets the whole state: whatever the game was, the
    state after a reset is the freshly mounted game on the same random
    tape, that is a board of 6 non-real cards, a hand of 8 cards (2
    binary, 4 complex, 2 unary), no stock, no selection, both counters
    at 0 and the win flag down. *)
Theorem resetGame_is_fresh_mount (s : GameState) (r : Rng) :
  let s' := step ResetGame s r in
  s' = run mount r /\
  length (board s') = 6 /\ Forall (fun z => b z <> 0%Z) (board s') /\
  length (hand s') = 8 /\ countKind KBinary (hand s') = 2 /\
  countKind KComplex (hand s') = 4 /\ countKind KUnary (hand s') = 2 /\
  stock s' = None /\ selectedOp s' = None /\ selectedTargets s' = [] /\
  moves s' = 0 /\ totalRemoved s' = 0 /\ gameOver s' = false.
Proof.
  cbv zeta. unfold step. cbn [handle].
  rewrite resetGame_unfold, mount_unfold. unfold checkWin. cbn [board gameOver].
  rewrite (genInitialBoard_length 6 r). cbn [Nat.eqb andb].
  cbn [board hand stock selectedOp selectedTargets moves totalRemoved gameOver].
  destruct (genHandBatch_shape (snd (genInitialBoard 6 r))) as (pre & Hshape & Hperm).
  destruct (batchShape_counts pre Hshape) as (Hl & Hb & Hc & Hu).
  rewrite (Permutation_length Hperm), !(countKind_Permutation _ _ _ Hperm).
  repeat split; auto using genInitialBoard_nonreal.
  apply (genInitialBoard_nonreal 6).
Qed.

(** ** How the operations compose *)

Lemma coords_applyBinary opCard x y r :
  a (run (applyBinary opCard x y) r) =
    match b_op opCard with
    | OpAdd => toDouble (a x + a y)
    | OpSub => toDouble (a x - a y)
    | OpMul => toDouble (toDouble (a x * a y) - toDouble (b x * b y))
    end%Z /\
  b (run (applyBinary opCard x y) r) =
    match b_op opCard with
    | OpAdd => toDouble (b x + b y)
    | OpSub => toDouble (b x - b y)
    | OpMul => toDouble (toDouble (a x * b y) + toDouble (b x * a y))
    end%Z.
Proof.
  unfold applyBinary, add, sub, mul. destruct (b_op opCard);
    rewrite run_bind; split; reflexivity.
Qed.

Lemma coords_applyUnary opCard z r :
  a (run (applyUnary opCard z) r) =
    match u_op opCard with
    | OpConj => a z
    | OpMulI => - b z
    | OpMulNegI => b z
    end%Z /\
  b (run (applyUnary opCard z) r) =
    match u_op opCard with
    | OpConj => - b z
    | OpMulI => a z
    | OpMulNegI => - a z
    end%Z.
Proof.
  unfold applyUnary, conj, imul. destruct (u_op opCard);
    rewrite run_bind; unfold run; simpl; split; lia.
Qed.

(** X4: which operand of a binary operation is taken as the left one never
    decides whether the result is real: sum and product have the same
    value either way, and the difference only changes its sign. *)
Theorem operand_order_keeps_realness
    (opCard : BinaryOpCard) (x y : ComplexCard) (r r' : Rng) :
  isReal (run (applyBinary opCard x y) r) = isReal (run (applyBinary opCard y x) r') /\
  value (run (add x y) r) = value (run (add y x) r') /\
  value (run (mul x y) r) = value (run (mul y x) r') /\
  value (run (sub x y) r) = (- a (run (sub y x) r'), - b (run (sub y x) r'))%Z.
Proof.
  assert (Hswap : forall u v : Z, toDouble (u - v) = (- toDouble (v - u))%Z).
  { intros u v. rewrite <- toDouble_opp. f_equal. lia. }
  split.
  - destruct (coords_applyBinary opCard x y r) as [_ Hb1].
    destruct (coords_applyBinary opCard y x r') as [_ Hb2].
    unfold isReal. rewrite Hb1, Hb2.
    destruct (b_op opCard).
    + f_equal. f_equal. lia.
    + rewrite (Hswap (b x) (b y)).
      destruct (Z.eqb_spec (- toDouble (b y - b x)) 0), (Z.eqb_spec (toDouble (b y - b x)) 0);
        lia || reflexivity.
    + f_equal. rewrite Z.add_comm. f_equal; f_equal; f_equal; lia.
  - unfold value, add, mul, sub. rewrite !run_bind. unfold run. simpl.
    repeat split.
    + f_equal; f_equal; lia.
    + f_equal.
      * f_equal. f_equal; f_equal; lia.
      * rewrite Z.add_comm. f_equal. f_equal; f_equal; lia.
    + f_equal; apply Hswap.
Qed.

(** X5: conjugating twice, multiplying by [i] and then by [-i] (in either
    order), and multiplying four times by [i] all give back the value
    they started from; multiplying twice by [i] negates it. *)
Theorem unary_round_trips (z : ComplexCard) (r1 r2 r3 r4 : Rng) :
  let cj z r := run (conj z) r in
  let ti z r := run (imul z 1) r in
  let tn z r := run (imul z (-1)) r in
  value (cj (cj z r1) r2) = value z /\
  value (tn (ti z r1) r2) = value z /\
  value (ti (tn z r1) r2) = value z /\
  value (ti (ti z r1) r2) = (- a z, - b z)%Z /\
  value (ti (ti (ti (ti z r1) r2) r3) r4) = value z.
Proof.
  cbv zeta. unfold conj, imul, value. rewrite !run_bind. unfold run. simpl.
  repeat split; f_equal; lia.
Qed.

(** X6: three ways to clear a card with a binary operator, for a card
    whose coefficients are at most 2^26 in magnitude: the product with
    a card of the conjugate value is the real number [a*a + b*b], the
    difference with a card of equal value is [0], and so is the sum
    with a card of the negated value. *)
Theorem clearing_operands (z : ComplexCard) (i : string) (r : Rng) :
  (Z.abs (a z) <= 2 ^ 26)%Z -> (Z.abs (b z) <= 2 ^ 26)%Z ->
  let conjugate := mkComplex i (a z) (- b z) in
  let same := mkComplex i (a z) (b z) in
  let negated := mkComplex i (- a z) (- b z) in
  (value (run (mul z conjugate) r) = (a z * a z + b z * b z, 0)%Z /\
   isReal (run (mul z conjugate) r) = true) /\
  (value (run (sub z same) r) = (0, 0)%Z /\ isReal (run (sub z same) r) = true) /\
  (value (run (add z negated) r) = (0, 0)%Z /\ isReal (run (add z negated) r) = true).
Proof.
  intros Ha Hb. cbv zeta.
  unfold value, isReal, mul, sub, add. rewrite !run_bind. unfold run. simpl.
  rewrite !Z.sub_diag, !Z.add_opp_diag_r.
  change (toDouble 0) with 0%Z.
  split; [| split; split; reflexivity].
  assert (H26 : (2 ^ 26 * 2 ^ 26 = 2 ^ 52)%Z) by reflexivity.
  assert (H53 : (2 ^ 52 + 2 ^ 52 = 2 ^ 53)%Z) by reflexivity.
  assert (Hprod : forall u v : Z,
             (Z.abs u <= 2 ^ 26 -> Z.abs v <= 2 ^ 26 -> Z.abs (u * v) <= 2 ^ 52)%Z).
  { intros u v Hu Hv. rewrite Z.abs_mul, <- H26.
    apply Z.mul_le_mono_nonneg; lia. }
  assert (Hnb : (Z.abs (- b z) <= 2 ^ 26)%Z) by (rewrite Z.abs_opp; exact Hb).
  pose proof (Hprod _ _ Ha Ha) as Haa. pose proof (Hprod _ _ Hb Hnb) as Hbb.
  pose proof (Hprod _ _ Ha Hnb) as Hab. pose proof (Hprod _ _ Hb Ha) as Hba.
  rewrite (toDouble_exact (a z * a z)), (toDouble_exact (b z * - b z)),
    (toDouble_exact (a z * - b z)), (toDouble_exact (b z * a z))
    by (unfold inExactRange; lia).
  rewrite (toDouble_exact (a z * a z - b z * - b z)),
    (toDouble_exact (a z * - b z + b z * a z)) by (unfold inExactRange; lia).
  split; [f_equal; lia |]. apply Z.eqb_eq. lia.
Qed.

Lemma clearing_operands_witness :
  ((Z.abs (a c_02) <= 2 ^ 26)%Z /\ (Z.abs (b c_02) <= 2 ^ 26)%Z) /\
  value (run (mul c_02 (mkComplex "k" (a c_02) (- b c_02))) (exampleTape 0))
    = (17, 0)%Z /\
  value (run (sub c_02 (mkComplex "k" (a c_02) (b c_02))) (exampleTape 0)) = (0, 0)%Z.
Proof.
  assert (Ha : (Z.abs (a c_02) <= 2 ^ 26)%Z) by (apply Z.leb_le; reflexivity).
  assert (Hb : (Z.abs (b c_02) <= 2 ^ 26)%Z) by (apply Z.leb_le; reflexivity).
  destruct (clearing_operands c_02 "k" (exampleTape 0) Ha Hb) as ((H1 & _) & (H2 & _) & _).
  split; [split; assumption |]. split; [exact H1 | exact H2].
Defined.

(** X7: on a card that is not real, conjugation never gives a real value,
    and multiplying by [i] or by [-i] gives one exactly when the real
    part of the card is 0. *)
Theorem unary_real_criterion (opCard : UnaryOpCard) (z : ComplexCard) (r : Rng) :
  b z <> 0%Z ->
  (isReal (run (applyUnary opCard z) r) = true <->
   u_op opCard <> OpConj /\ a z = 0%Z).
Proof.
  intros Hb. destruct (coords_applyUnary opCard z r) as [_ Hb'].
  unfold isReal. rewrite Hb', Z.eqb_eq.
  destruct (u_op opCard); split; try (intros [H1 H2]); try split;
    try congruence; try lia.
Qed.

Lemma unary_real_criterion_witness :
  b (mkComplex "c_z" 0 3) <> 0%Z /\
  (isReal (run (applyUnary (mkUnary "u_z" OpMulI) (mkComplex "c_z" 0 3)) (exampleTape 0))
     = true <->
   u_op (mkUnary "u_z" OpMulI) <> OpConj /\ a (mkComplex "c_z" 0 3) = 0%Z).
Proof.
  assert (H : b (mkComplex "c_z" 0 3) <> 0%Z) by (simpl; lia).
  split; [exact H |].
  exact (unary_real_criterion (mkUnary "u_z" OpMulI) (mkComplex "c_z" 0 3)
           (exampleTape 0) H).
Defined.

(** ** The stock only rearranges the cards held *)

Lemma filter_cardLacksId_Permutation id (l : list Card) c :
  NoDup (map card_id l) ->
  List.find (cardHasId id) l = Some c ->
  List.filter (cardLacksId id) l ++ [c] ≡ₚ l.
Proof.
  induction l as [|x l IH]; simpl; intros Hnd Hfind; [discriminate |].
  apply NoDup_cons in Hnd as [Hx Hnd].
  unfold cardHasId at 1 in Hfind. unfold cardLacksId at 1.
  destruct (String.eqb_spec (card_id x) id) as [Heq|Hne]; simpl.
  - injection Hfind as <-. rewrite filter_cardLacksId_absent.
    + symmetry. apply Permutation_cons_append.
    + rewrite <- Heq. intros Hin. apply Hx, list_elem_of_In, Hin.
  - f_equal. rewrite (IH Hnd Hfind). reflexivity.
Qed.

Lemma filter_cardLacksId_lacks id (l : list Card) :
  ~ In id (map card_id (List.filter (cardLacksId id) l)).
Proof.
  intros Hin. apply in_map_iff in Hin as (c & Hid & Hc).
  apply List.filter_In in Hc as [_ Hc]. unfold cardLacksId in Hc.
  rewrite Hid, String.eqb_refl in Hc. discriminate.
Qed.

(** X8: the stock calls never create, lose or copy a card: with pairwise
    distinct ids among the cards held, [toggleStockFromHand] leaves the
    same cards in hand and stock taken together, [placeStockBack] keeps
    them even in the same order, and neither touches board, counters or
    win flag. *)
Theorem stock_calls_keep_cards (s : GameState) (cardId : string) :
  NoDup (heldIds s) ->
  heldCards (toggleStockFromHand s cardId) ≡ₚ heldCards s /\
  heldCards (placeStockBack s) = heldCards s /\
  stock (placeStockBack s) = None /\
  (let t := toggleStockFromHand s cardId in
   board t = board s /\ moves t = moves s /\
   totalRemoved t = totalRemoved s /\ gameOver t = gameOver s) /\
  (let p := placeStockBack s in
   board p = board s /\ moves p = moves s /\
   totalRemoved p = totalRemoved s /\ gameOver p = gameOver s).
Proof.
  intros Hnd. cbv zeta.
  assert (Hframe : forall s', s' = toggleStockFromHand s cardId \/ s' = placeStockBack s ->
     board s' = board s /\ moves s' = moves s /\
     totalRemoved s' = totalRemoved s /\ gameOver s' = gameOver s).
  { intros s' [-> | ->]; unfold toggleStockFromHand, placeStockBack;
      repeat case_match; repeat split. }
  split; [| split; [| split; [| split; apply Hframe; auto]]].
  - unfold heldIds in Hnd. unfold heldCards, toggleStockFromHand.
    destruct (List.find (cardHasId cardId) (hand s)) as [c|] eqn:Hfind; [| reflexivity].
    apply NoDup_app in Hnd as (Hhand & Hdisj & _).
    pose proof (filter_cardLacksId_Permutation _ _ _ Hhand Hfind) as Hperm.
    destruct (stock s) as [st|] eqn:Hst.
    + destruct (String.eqb_spec (card_id st) (card_id c)) as [Heq|Hne].
      * exfalso. apply find_cardHasId in Hfind as [Hin _].
        apply (Hdisj (card_id c)).
        -- apply list_elem_of_In, in_map, Hin.
        -- rewrite Heq. apply list_elem_of_In. left. reflexivity.
      * simpl. rewrite <- Hperm at 2.
        rewrite <- !app_assoc. apply Permutation_app_head, Permutation_app_comm.
    + simpl. rewrite app_nil_r. exact Hperm.
  - unfold heldCards, placeStockBack. destruct (stock s) as [st|] eqn:Hst; simpl.
    + rewrite app_nil_r. reflexivity.
    + rewrite Hst. reflexivity.
  - unfold placeStockBack. destruct (stock s) eqn:Hst; [reflexivity | exact Hst].
Qed.

Lemma stock_calls_keep_cards_witness :
  NoDup (heldIds stocked) /\
  heldCards (toggleStockFromHand stocked "c_33") ≡ₚ heldCards stocked /\
  heldCards (placeStockBack stocked) = heldCards stocked.
Proof.
  assert (Hnd : NoDup (heldIds stocked))
    by (apply (bool_decide_unpack _); vm_compute; exact I).
  destruct (stock_calls_keep_cards stocked "c_33" Hnd) as (H1 & H2 & _).
  split; [exact Hnd |]. split; [exact H1 | exact H2].
Defined.

(** X9: stocking a hand card whose id the stock does not carry: the first
    hand card with that id becomes the stock, every card with that id
    leaves the hand, the card stocked before returns at the end of the
    hand, and the selection is cleared.  Placing the stock back right
    away puts the card at the very end of the hand. *)
Theorem toggleStockFromHand_stocks (s : GameState) (cardId : string) (c : Card) :
  List.find (cardHasId cardId) (hand s) = Some c ->
  stockHasId s cardId = false ->
  let s' := toggleStockFromHand s cardId in
  stock s' = Some c /\
  hand s' = List.filter (cardLacksId cardId) (hand s) ++ option_list (stock s) /\
  ~ In cardId (map card_id (hand s')) /\
  selectedOp s' = None /\ selectedTargets s' = [] /\
  hand (placeStockBack s')
    = List.filter (cardLacksId cardId) (hand s) ++ option_list (stock s) ++ [c] /\
  stock (placeStockBack s') = None.
Proof.
  intros Hfind Hstock. cbv zeta.
  pose proof (find_cardHasId _ _ _ Hfind) as [_ Hid].
  assert (Hs' : toggleStockFromHand s cardId =
                resetSelections (setStock (Some c)
                  (setHand (fun prev => List.filter (cardLacksId cardId) prev
                                          ++ option_list (stock s)) s))).
  { unfold toggleStockFromHand, stockHasId in *. rewrite Hfind.
    destruct (stock s) as [st|] eqn:Hst.
    - rewrite Hid, String.eqb_sym, Hstock. reflexivity.
    - simpl. unfold resetSelections, setStock, setHand, setSelectedOp,
        setSelectedTargets. simpl. rewrite app_nil_r. reflexivity. }
  rewrite Hs'. unfold placeStockBack. simpl.
  repeat split; try (rewrite <- app_assoc; reflexivity).
  rewrite map_app, in_app_iff. intros [Hin | Hin].
  - exact (filter_cardLacksId_lacks _ _ Hin).
  - unfold stockHasId in Hstock. destruct (stock s) as [st|]; simpl in Hin; [| exact Hin].
    destruct Hin as [Hin | []]. rewrite Hin, String.eqb_refl in Hstock. discriminate.
Qed.

Lemma toggleStockFromHand_stocks_witness :
  (List.find (cardHasId "c_33") (hand stocked) = Some (Complex (mkComplex "c_33" 1 4)) /\
   stockHasId stocked "c_33" = false) /\
  stock (toggleStockFromHand stocked "c_33") = Some (Complex (mkComplex "c_33" 1 4)) /\
  last (hand (toggleStockFromHand stocked "c_33")) = Some (Complex c_24).
Proof.
  split; [split; reflexivity |].
  destruct (toggleStockFromHand_stocks stocked "c_33" (Complex (mkComplex "c_33" 1 4))
              eq_refl eq_refl) as (H1 & H2 & _).
  split; [exact H1 |]. rewrite H2. reflexivity.
Defined.

(** ** The selection *)

Lemma lastTwo_length {A} (l : list A) : length (lastTwo l) <= 2.
Proof. unfold lastTwo. rewrite length_drop. lia. Qed.

Lemma lastTwo_short {A} (l : list A) : length l <= 2 -> lastTwo l = l.
Proof.
  unfold lastTwo. intros H. replace (length l - 2) with 0 by lia. reflexivity.
Qed.

Lemma lastTwo_In {A} (l : list A) x : In x (lastTwo l) -> In x l.
Proof.
  unfold lastTwo. intros H. apply list_elem_of_In.
  apply list_elem_of_In in H. exact (subseteq_drop _ _ _ H).
Qed.

Lemma toggleTarget_In id prev t :
  In t (toggleTarget id prev) -> t = id \/ In t prev.
Proof.
  unfold toggleTarget. destruct (existsb (String.eqb id) prev).
  - intros H. apply List.filter_In in H as [H _]. auto.
  - intros H. apply lastTwo_In, in_app_iff in H as [H | [H | []]]; auto.
Qed.

Lemma existsb_eqb_In id (l : list string) :
  existsb (String.eqb id) l = true <-> In id l.
Proof.
  rewrite existsb_exists. split.
  - intros (x & Hx & Heq). apply String.eqb_eq in Heq. congruence.
  - intros H. exists id. split; [exact H | apply String.eqb_refl].
Qed.

Lemma filter_neq_absent id (l : list string) :
  ~ In id l -> List.filter (fun x => negb (String.eqb x id)) l = l.
Proof.
  induction l as [|x l IH]; simpl; intros H; [reflexivity |].
  destruct (String.eqb_spec x id) as [Heq|Hne]; simpl.
  - exfalso. apply H. left. exact Heq.
  - f_equal. apply IH. tauto.
Qed.

Lemma NoDup_List_filter {A} (p : A -> bool) (l : list A) :
  NoDup l -> NoDup (List.filter p l).
Proof.
  induction 1 as [|x l Hx _ IH]; simpl; [constructor |].
  destruct (p x); [| exact IH].
  constructor; [| exact IH].
  intros Hin. apply Hx. apply list_elem_of_In.
  apply list_elem_of_In, List.filter_In in Hin as [Hin _]. exact Hin.
Qed.

Lemma toggleTarget_length id prev :
  length prev <= 2 -> length (toggleTarget id prev) <= 2.
Proof.
  intros H. unfold toggleTarget. destruct (existsb (String.eqb id) prev).
  - pose proof (List.filter_length_le (fun x => negb (String.eqb x id)) prev). lia.
  - apply lastTwo_length.
Qed.

Lemma toggleTarget_NoDup id prev : NoDup prev -> NoDup (toggleTarget id prev).
Proof.
  intros Hnd. unfold toggleTarget.
  destruct (existsb (String.eqb id) prev) eqn:Hex.
  - apply NoDup_List_filter, Hnd.
  - unfold lastTwo. eapply sublist_NoDup; [| apply sublist_drop].
    apply NoDup_app. repeat split; [exact Hnd | | apply NoDup_singleton].
    intros x Hx Hx'. apply list_elem_of_singleton in Hx'. subst x.
    apply list_elem_of_In, existsb_eqb_In in Hx. congruence.
Qed.

(** X10: toggling a target keeps the list duplicate-free and at most two
    long, flips whether the id is in it, puts a newly added id last
    (evicting the oldest of two), and toggling twice gives back a list
    of at most one id. *)
Theorem toggleTarget_bounds (id : string) (prev : list string) :
  length prev <= 2 -> NoDup prev ->
  length (toggleTarget id prev) <= 2 /\
  NoDup (toggleTarget id prev) /\
  (In id (toggleTarget id prev) <-> ~ In id prev) /\
  (~ In id prev -> last (toggleTarget id prev) = Some id) /\
  (forall x y, prev = [x; y] -> ~ In id prev -> toggleTarget id prev = [y; id]) /\
  (length prev <= 1 -> toggleTarget id (toggleTarget id prev) = prev).
Proof.
  intros Hlen Hnd.
  destruct (existsb (String.eqb id) prev) eqn:Hex.
  - assert (Heq : toggleTarget id prev
                  = List.filter (fun x => negb (String.eqb x id)) prev)
      by (unfold toggleTarget; rewrite Hex; reflexivity).
    rewrite !Heq. apply existsb_eqb_In in Hex.
    split.
    { pose proof (List.filter_length_le (fun x => negb (String.eqb x id)) prev). lia. }
    split; [apply NoDup_List_filter, Hnd |].
    split.
    { split; [| tauto]. intros H. apply List.filter_In in H as [_ H].
      rewrite String.eqb_refl in H. discriminate. }
    split; [tauto |]. split; [tauto |].
    intros Hl. destruct prev as [|x [|]]; simpl in *; try lia; try tauto.
    destruct Hex as [-> | []]. unfold toggleTarget. simpl.
    rewrite String.eqb_refl. reflexivity.
  - assert (Heq : toggleTarget id prev = lastTwo (prev ++ [id]))
      by (unfold toggleTarget; rewrite Hex; reflexivity).
    rewrite !Heq.
    assert (Hnot : ~ In id prev).
    { intros H. apply existsb_eqb_In in H. congruence. }
    split; [apply lastTwo_length |].
    split.
    { unfold lastTwo. eapply sublist_NoDup; [| apply sublist_drop].
      apply NoDup_app. repeat split.
      * exact Hnd.
      * intros x Hx Hx'. apply list_elem_of_singleton in Hx'. subst x.
        apply Hnot, list_elem_of_In, Hx.
      * apply NoDup_singleton. }
    assert (Hlast : last (lastTwo (prev ++ [id])) = Some id).
    { destruct prev as [|x [|y [|]]]; simpl in *; try lia; reflexivity. }
    split.
    { split; [tauto |]. intros _.
      destruct prev as [|x [|y [|]]]; simpl in *; try lia;
        unfold lastTwo; simpl; auto. }
    split; [intros _; exact Hlast |].
    split; [intros x y -> _; reflexivity |].
    intros Hl. rewrite lastTwo_short by (rewrite length_app; simpl; lia).
    unfold toggleTarget.
    replace (existsb (String.eqb id) (prev ++ [id])) with true.
    + rewrite List.filter_app. simpl. rewrite String.eqb_refl. simpl.
      rewrite app_nil_r. apply filter_neq_absent, Hnot.
    + symmetry. apply existsb_eqb_In, in_app_iff. right. left. reflexivity.
Qed.

Lemma toggleTarget_bounds_witness :
  (length ["c_24"; "c_33"] <= 2 /\ NoDup ["c_24"; "c_33"]) /\
  toggleTarget "c_30" ["c_24"; "c_33"] = ["c_33"; "c_30"] /\
  length (toggleTarget "c_30" ["c_24"; "c_33"]) <= 2.
Proof.
  assert (Hlen : length ["c_24"; "c_33"] <= 2) by (simpl; lia).
  assert (Hnd : NoDup ["c_24"; "c_33"])
    by (apply (bool_decide_unpack _); vm_compute; exact I).
  destruct (toggleTarget_bounds "c_30" ["c_24"; "c_33"] Hlen Hnd)
    as (H1 & _ & _ & _ & _ & _).
  split; [split; assumption |]. split; [reflexivity | exact H1].
Defined.

Lemma selectionOk_cleared s :
  selectedOp s = None -> selectedTargets s = [] -> selectionOk s.
Proof.
  intros Hop Hts. unfold selectionOk. rewrite Hop, Hts. simpl.
  repeat split; try lia; try constructor; try discriminate; try contradiction.
Qed.

Lemma performUnary_cleared s opCard target r :
  run (performUnary s opCard target) r = s \/
  (selectedOp (run (performUnary s opCard target) r) = None /\
   selectedTargets (run (performUnary s opCard target) r) = []).
Proof.
  destruct (findIndex (hasId (c_id target)) (board s)) as [idx|] eqn:Hidx.
  - right. destruct (performUnary_fields s opCard target r idx Hidx)
      as (_ & _ & _ & _ & H1 & H2). auto.
  - left. apply performUnary_absent, Hidx.
Qed.

Lemma performBinary_cleared s opCard z1 z2 id1 id2 r :
  selectedOp (run (performBinary s opCard z1 z2 id1 id2) r) = None /\
  selectedTargets (run (performBinary s opCard z1 z2 id1 id2) r) = [].
Proof.
  destruct (onBoard s id1 || onBoard s id2) eqn:Hon.
  - destruct (performBinary_fields s opCard z1 z2 id1 id2 r Hon)
      as (_ & _ & _ & _ & H1 & H2). auto.
  - apply orb_false_iff in Hon as [H1 H2].
    unfold run. rewrite (performBinary_absent s opCard z1 z2 id1 id2 r H1 H2).
    split; reflexivity.
Qed.

Lemma placeStockBack_held s t :
  List.find (hasId t) (board s) = None ->
  (exists z, findCardById s t = Some (Complex z)) ->
  exists z, findCardById (placeStockBack s) t = Some (Complex z).
Proof.
  intros Hb [z Hz]. exists z. revert Hz.
  unfold placeStockBack. destruct (stock s) as [st|] eqn:Hst; [| auto].
  unfold findCardById. simpl. rewrite Hb, Hst.
  destruct (List.find (cardHasId t) (hand s)) as [c|] eqn:Hh.
  - rewrite (find_app_l _ _ _ _ Hh). auto.
  - rewrite (find_app_r _ _ _ Hh). simpl. unfold cardHasId.
    destruct (String.eqb (card_id st) t); auto.
Qed.

Lemma unstock_held s c st t :
  In c (hand s) -> stock s = Some st -> card_id st = card_id c ->
  List.find (hasId t) (board s) = None ->
  (exists z, findCardById s t = Some (Complex z)) ->
  exists z, findCardById (setStock None s) t = Some (Complex z).
Proof.
  intros Hin Hst Heq Hb [z Hz]. exists z. revert Hz.
  unfold findCardById. simpl. rewrite Hb, Hst.
  destruct (List.find (cardHasId t) (hand s)) as [c'|] eqn:Hh; [auto |].
  destruct (String.eqb_spec (card_id st) t) as [Ht'|]; [| discriminate].
  pose proof (List.find_none _ _ Hh c Hin) as Hf.
  unfold cardHasId in Hf. apply String.eqb_neq in Hf. congruence.
Qed.

Lemma toggleStockFromHand_selectionOk s cardId :
  selectionOk s -> selectionOk (toggleStockFromHand s cardId).
Proof.
  unfold toggleStockFromHand.
  destruct (List.find (cardHasId cardId) (hand s)) as [c|] eqn:Hfind; [| auto].
  destruct (stock s) as [st|] eqn:Hst;
    [| intros _; apply selectionOk_cleared; reflexivity].
  destruct (String.eqb_spec (card_id st) (card_id c)) as [Heq|Hne];
    [| intros _; apply selectionOk_cleared; reflexivity].
  intros (H1 & H2 & H3 & H4 & H5). repeat split; try assumption.
  - apply H5, H.
  - apply find_cardHasId in Hfind as [Hin _].
    apply (unstock_held s c st t Hin Hst Heq); apply H5, H.
Qed.

Lemma placeStockBack_selectionOk s : selectionOk s -> selectionOk (placeStockBack s).
Proof.
  intros (H1 & H2 & H3 & H4 & H5).
  assert (Hsel : selectedOp (placeStockBack s) = selectedOp s /\
                 selectedTargets (placeStockBack s) = selectedTargets s /\
                 board (placeStockBack s) = board s).
  { unfold placeStockBack. destruct (stock s); repeat split. }
  destruct Hsel as (Ho & Ht & Hb).
  unfold selectionOk. rewrite Ho, Ht, Hb. repeat split; try assumption.
  - apply H5, H.
  - apply placeStockBack_held; apply H5, H.
Qed.

Lemma click_selectionOk s id r s' :
  clickOutcome s id r s' -> selectionOk s -> selectionOk s'.
Proof.
  intros Hout Hs. pose proof Hs as (H1 & H2 & H3 & H4 & H5).
  destruct Hout as [| card Hcard Hop | z Hop Hcard Hb | opCard target z Hop Hcard Hb
                    | opCard z Hop Hk Hts Hcard Hb
                    | opCard firstId z1 z2 Hop Hk Hts Hne Hc1 Hc2 | Hop].
  - exact Hs.
  - unfold selectionOk. simpl. repeat split; try lia; try constructor; try contradiction.
    intros c [= <-]. exact Hop.
  - unfold selectionOk. simpl. rewrite Hop. repeat split.
    + apply toggleTarget_length, H1.
    + apply toggleTarget_NoDup, H2.
    + intros H. contradiction.
    + discriminate.
    + apply toggleTarget_In in H as [-> | H]; [exact Hb | apply H5, H].
    + apply toggleTarget_In in H as [-> | H]; [eauto | apply H5, H].
  - destruct (performUnary_cleared s opCard target r) as [-> | [Ho Ht]];
      [exact Hs | apply selectionOk_cleared; assumption].
  - unfold selectionOk. simpl. repeat split; try lia.
    + apply NoDup_singleton.
    + exact H4.
    + destruct H as [<- | []]. exact Hb.
    + destruct H as [<- | []]. eauto.
  - apply selectionOk_cleared; apply performBinary_cleared.
  - apply selectionOk_cleared; reflexivity.
Qed.

Lemma checkWin_selectionOk s : selectionOk s -> selectionOk (checkWin s).
Proof. unfold checkWin. case_match; auto. Qed.

Lemma step_selectionOk e s r : selectionOk s -> selectionOk (step e s r).
Proof.
  intros Hs. unfold step. apply checkWin_selectionOk. destruct e; cbn [handle].
  - apply (click_selectionOk s id r); [apply onSelectCard_outcome | exact Hs].
  - apply toggleStockFromHand_selectionOk, Hs.
  - apply selectionOk_cleared; apply (drawNextBatch_fields s r).
  - apply placeStockBack_selectionOk, Hs.
  - rewrite resetGame_unfold. apply selectionOk_cleared; reflexivity.
Qed.

(** X11: in every state the component can reach, at most two targets are
    selected and they are distinct; while an operator is selected there
    is at most one target; the selected operator is a binary or unary
    card, never a complex one; and every selected target names a
    complex card that is in the hand or the stock, not on the board. *)
Theorem selection_well_formed (s : GameState) :
  reachable s ->
  length (selectedTargets s) <= 2 /\
  NoDup (selectedTargets s) /\
  (selectedOp s <> None -> length (selectedTargets s) <= 1) /\
  (forall c, selectedOp s = Some c -> isOperator c = true) /\
  (forall t, In t (selectedTargets s) ->
     List.find (hasId t) (board s) = None /\
     exists z, findCardById s t = Some (Complex z)).
Proof.
  intros Hs. change (selectionOk s).
  induction Hs as [r | s e r _ IH].
  - rewrite mount_unfold. apply selectionOk_cleared; reflexivity.
  - apply step_selectionOk, IH.
Qed.

Lemma selection_well_formed_witness :
  reachable picked /\
  length (selectedTargets picked) <= 2 /\
  (forall c, selectedOp picked = Some c -> isOperator c = true).
Proof.
  destruct (selection_well_formed picked picked_reachable) as (H1 & _ & _ & H4 & _).
  split; [exact picked_reachable |]. split; [exact H1 | exact H4].
Defined.

(** ** What a click does to the table *)

Lemma find_findIndex {A} (p : A -> bool) (l : list A) x :
  List.find p l = Some x -> exists i, findIndex p l = Some i /\ l !! i = Some x.
Proof.
  induction l as [|y l IH]; simpl; [discriminate |].
  destruct (p y).
  - intros [= <-]. exists 0. auto.
  - intros H. destruct (IH H) as (i & Hi & Hx). exists (S i).
    rewrite Hi. auto.
Qed.

Lemma genHandBatch_counts :
  always genHandBatch (fun batch =>
    length batch = 8 /\ countKind KBinary batch = 2 /\
    countKind KComplex batch = 4 /\ countKind KUnary batch = 2).
Proof.
  intros r. destruct (genHandBatch_shape r) as (pre & Hshape & Hperm).
  rewrite (Permutation_length Hperm), !(countKind_Permutation _ _ _ Hperm).
  apply batchShape_counts, Hshape.
Qed.

Lemma drawNextBatch_unfold s r :
  run (drawNextBatch s) r = resetSelections (setHand (fun _ => run genHandBatch r) s).
Proof. unfold drawNextBatch. rewrite run_bind. reflexivity. Qed.

Lemma performUnary_unfold s opCard target r idx :
  findIndex (hasId (c_id target)) (board s) = Some idx ->
  let result := run (applyUnary opCard target) r in
  let batch := run genHandBatch (snd (applyUnary opCard target r)) in
  let s2 := settleUnary idx result (setMoves (fun m => m + 1) s) in
  let s3 := resetSelections (setHand (fun _ => batch) (resetSelections s2)) in
  run (performUnary s opCard target) r
    = if stockHasId s (u_id opCard) then setStock None s3 else s3.
Proof.
  intros Hidx. cbv zeta. unfold performUnary. rewrite Hidx.
  rewrite !run_bind, drawNextBatch_unfold. reflexivity.
Qed.

Lemma performBinary_unfold s opCard z1 z2 id1 id2 r :
  onBoard s id1 || onBoard s id2 = true ->
  let left := if onBoard s id1 then z1 else z2 in
  let right := if onBoard s id1 then z2 else z1 in
  let both := onBoard s id1 && onBoard s id2 in
  let result := run (applyBinary opCard left right) r in
  let batch := run genHandBatch (snd (applyBinary opCard left right r)) in
  let s2 := settleBinary left right result true both (setMoves (fun m => m + 1) s) in
  run (performBinary s opCard z1 z2 id1 id2) r
    = resetSelections (setHand (fun _ => batch)
        (resetSelections (if stockHasId s id1 then setStock None s2 else s2))).
Proof.
  intros Hon. cbv zeta.
  rewrite (performBinary_applied _ _ _ _ _ _ Hon), run_bind. cbv zeta.
  rewrite drawNextBatch_unfold. reflexivity.
Qed.

Lemma settleUnary_frame idx result s1 :
  hand (settleUnary idx result s1) = hand s1 /\
  stock (settleUnary idx result s1) = stock s1 /\
  moves (settleUnary idx result s1) = moves s1 /\
  gameOver (settleUnary idx result s1) = gameOver s1 /\
  totalRemoved (settleUnary idx result s1)
    = totalRemoved s1 + (if isReal result then 1 else 0).
Proof. unfold settleUnary. destruct (isReal result); simpl; repeat split; lia. Qed.

Lemma settleBinary_frame left right result lb rb s1 :
  hand (settleBinary left right result lb rb s1) = hand s1 /\
  stock (settleBinary left right result lb rb s1) = stock s1 /\
  moves (settleBinary left right result lb rb s1) = moves s1 /\
  gameOver (settleBinary left right result lb rb s1) = gameOver s1 /\
  totalRemoved s1 <= totalRemoved (settleBinary left right result lb rb s1)
    <= totalRemoved s1 + 2.
Proof. unfold settleBinary. repeat case_match; simpl; repeat split; lia. Qed.

Lemma performUnary_movedOn s opCard target r idx :
  findIndex (hasId (c_id target)) (board s) = Some idx ->
  movedOn s (run (performUnary s opCard target) r).
Proof.
  intros Hidx. rewrite (performUnary_unfold s opCard target r idx Hidx). cbv zeta.
  pose proof (genHandBatch_counts (snd (applyUnary opCard target r))) as (Hl & Hb & Hc & Hu).
  destruct (settleUnary_frame idx (run (applyUnary opCard target) r)
              (setMoves (fun m => m + 1) s)) as (_ & Hst & Hm & Hg & Ht).
  destruct (findIndex_Some _ _ _ Hidx) as (old & Hold & _).
  pose proof (settleUnary_length idx (run (applyUnary opCard target) r)
                (setMoves (fun m => m + 1) s) old Hold) as Hlen.
  simpl in Hst, Hm, Hg, Ht, Hlen.
  unfold movedOn.
  destruct (stockHasId s (u_id opCard)); simpl;
    rewrite ?Hst, ?Hm, ?Hg, ?Ht;
    destruct (isReal (run (applyUnary opCard target) r));
    repeat split; auto; lia.
Qed.

Lemma performBinary_movedOn s opCard z1 z2 id1 id2 r :
  onBoard s id1 || onBoard s id2 = true ->
  movedOn s (run (performBinary s opCard z1 z2 id1 id2) r).
Proof.
  intros Hon. rewrite (performBinary_unfold s opCard z1 z2 id1 id2 r Hon). cbv zeta.
  set (left := if onBoard s id1 then z1 else z2).
  set (right := if onBoard s id1 then z2 else z1).
  set (result := run (applyBinary opCard left right) r).
  pose proof (genHandBatch_counts (snd (applyBinary opCard left right r)))
    as (Hl & Hb & Hc & Hu).
  destruct (settleBinary_frame left right result true (onBoard s id1 && onBoard s id2)
              (setMoves (fun m => m + 1) s)) as (_ & Hst & Hm & Hg & Ht).
  pose proof (settleBinary_length_le left right result true
                (onBoard s id1 && onBoard s id2) (setMoves (fun m => m + 1) s)) as Hlen.
  simpl in Hst, Hm, Hg, Ht, Hlen.
  unfold movedOn.
  destruct (stockHasId s id1); simpl; rewrite ?Hst, ?Hm, ?Hg;
    repeat split; auto; lia.
Qed.

Lemma sameTable_refl s : sameTable s s.
Proof. repeat split. Qed.

Lemma click_dichotomy_outcome s id r s' :
  clickOutcome s id r s' -> sameTable s s' \/ movedOn s s'.
Proof.
  intros [| | | opCard target z Hop Hcard Hb | | opCard firstId z1 z2 _ _ _ _ _ _ |];
    try (left; repeat split; fail).
  - apply find_findIndex in Hb as (idx & Hidx & Hx).
    pose proof (find_hasId id (board s) target) as Hid.
    assert (Heq : c_id target = id).
    { destruct (findIndex_Some _ _ _ Hidx) as (x & Hx' & Hp).
      rewrite Hx in Hx'. injection Hx' as <-. apply String.eqb_eq, Hp. }
    right. apply (performUnary_movedOn s opCard target r idx). rewrite Heq. exact Hidx.
  - destruct (onBoard s firstId || onBoard s id) eqn:Hon.
    + right. apply performBinary_movedOn, Hon.
    + left. apply orb_false_iff in Hon as [H1 H2]. unfold run.
      rewrite (performBinary_absent s _ z1 z2 firstId id r H1 H2). repeat split.
Qed.

(** X12: a click either leaves the table alone (board, hand, stock, counters
    and win flag as they were; only the selection may change), or it
    applies exactly one operation: one more move, a freshly drawn hand
    of 8 cards (2 binary, 4 complex, 2 unary), an empty selection, a
    board that is not longer, at most 2 more removals counted, and a
    stock that is kept or emptied. *)
Theorem click_dichotomy (s : GameState) (id : string) (r : Rng) :
  let s' := run (onSelectCard s id) r in
  (sameTable s s' /\ moves s' = moves s) \/
  (movedOn s s' /\ moves s' = moves s + 1).
Proof.
  cbv zeta.
  destruct (click_dichotomy_outcome s id r _ (onSelectCard_outcome s id r)) as [H | H].
  - left. split; [exact H | apply H].
  - right. split; [exact H | apply H].
Qed.

(** X13: a click on an id that no card in hand, on the board or in the stock
    carries changes nothing and leaves the random source unread. *)
Theorem onSelectCard_unknown_id (s : GameState) (id : string) (r : Rng) :
  ~ In id (tableIds s) -> onSelectCard s id r = (s, r).
Proof.
  intros Hnot. unfold tableIds in Hnot. rewrite !in_app_iff in Hnot.
  assert (Hnone : findCardById s id = None).
  { unfold findCardById.
    destruct (List.find (cardHasId id) (hand s)) as [c|] eqn:Hh.
    { apply find_cardHasId in Hh as [Hin Hid]. exfalso. apply Hnot. left.
      rewrite <- Hid. apply in_map, Hin. }
    destruct (List.find (hasId id) (board s)) as [z|] eqn:Hb.
    { apply find_hasId in Hb as [Hin Hid]. exfalso. apply Hnot. right. left.
      rewrite <- Hid. apply in_map, Hin. }
    destruct (stock s) as [st|]; [| reflexivity].
    destruct (String.eqb_spec (card_id st) id) as [Heq|]; [| reflexivity].
    exfalso. apply Hnot. right. right. left. exact Heq. }
  unfold onSelectCard. rewrite Hnone. reflexivity.
Qed.

Lemma onSelectCard_unknown_id_witness :
  ~ In "c_99" (tableIds mounted) /\
  onSelectCard mounted "c_99" (exampleTape 50) = (mounted, exampleTape 50).
Proof.
  assert (H : ~ In "c_99" (tableIds mounted)).
  { rewrite <- list_elem_of_In. apply (bool_decide_unpack _). vm_compute. exact I. }
  split; [exact H |].
  exact (onSelectCard_unknown_id mounted "c_99" (exampleTape 50) H).
Defined.

(** X14: the unary engine on a card that is on the board, at slot [idx]: one
    move is counted; a real result deletes the slot and counts one
    removal, a non-real result takes the slot; the stock is emptied
    exactly when the operator card was the stocked one; the hand is
    redrawn, the selection is cleared and the win flag is not touched. *)
Theorem performUnary_policy
    (s : GameState) (opCard : UnaryOpCard) (target : ComplexCard) (r : Rng) (idx : nat) :
  findIndex (hasId (c_id target)) (board s) = Some idx ->
  let result := run (applyUnary opCard target) r in
  let s' := run (performUnary s opCard target) r in
  moves s' = moves s + 1 /\
  (if isReal result
   then board s' = delete idx (board s) /\ totalRemoved s' = totalRemoved s + 1
   else board s' = <[idx:=result]> (board s) /\ totalRemoved s' = totalRemoved s) /\
  stock s' = (if stockHasId s (u_id opCard) then None else stock s) /\
  length (hand s') = 8 /\
  selectedOp s' = None /\ selectedTargets s' = [] /\
  gameOver s' = gameOver s.
Proof.
  intros Hidx result s'.
  destruct (performUnary_fields s opCard target r idx Hidx)
    as (Hb & Hm & Ht & Hst & Ho & Hts).
  destruct (performUnary_movedOn s opCard target r idx Hidx)
    as (_ & Hl & _ & _ & _ & _ & _ & Hg & _).
  fold s' in Hb, Hm, Ht, Hst, Ho, Hts, Hl, Hg. fold result in Hb, Ht.
  repeat split; try assumption.
  rewrite Hb, Ht. unfold settleUnary. destruct (isReal result); simpl; auto.
Qed.

Lemma performUnary_policy_witness :
  findIndex (hasId (c_id (mkComplex "c_z" 0 3))) (board lastCard) = Some 0 /\
  let s' := run (performUnary lastCard (mkUnary "u_z" OpMulI) (mkComplex "c_z" 0 3))
                (exampleTape 50) in
  moves s' = 1 /\ length (hand s') = 8.
Proof.
  split; [reflexivity |].
  destruct (performUnary_policy lastCard (mkUnary "u_z" OpMulI) (mkComplex "c_z" 0 3)
              (exampleTape 50) 0 eq_refl) as (Hm & _ & _ & Hl & _).
  split; [exact Hm | exact Hl].
Defined.

(** ** Invariants of the reachable states *)

Lemma reachable_nonReal s : reachable s -> Forall nonReal (board s).
Proof.
  induction 1 as [r | s e r _ IH].
  - rewrite mount_board. apply genInitialBoard_nonreal.
  - apply step_nonReal, IH.
Qed.

Lemma reachable_selectionOk s : reachable s -> selectionOk s.
Proof.
  induction 1 as [r | s e r _ IH].
  - rewrite mount_unfold. apply selectionOk_cleared; reflexivity.
  - apply step_selectionOk, IH.
Qed.

Lemma filter_cardLacksId_shorter id (l : list Card) c :
  List.find (cardHasId id) l = Some c ->
  length (List.filter (cardLacksId id) l) + 1 <= length l.
Proof.
  induction l as [|x l IH]; simpl; [discriminate |].
  unfold cardHasId at 1, cardLacksId at 1.
  destruct (String.eqb (card_id x) id); simpl.
  - intros _. pose proof (List.filter_length_le (cardLacksId id) l). lia.
  - intros H. apply IH in H. lia.
Qed.

Lemma toggleStockFromHand_heldCount_le s cardId :
  heldCount (toggleStockFromHand s cardId) <= heldCount s.
Proof.
  unfold toggleStockFromHand, heldCount.
  destruct (List.find (cardHasId cardId) (hand s)) as [c|] eqn:Hfind; [| lia].
  pose proof (filter_cardLacksId_shorter _ _ _ Hfind) as Hlen.
  destruct (stock s) as [st|]; [destruct (String.eqb (card_id st) (card_id c)) |];
    simpl; rewrite ?length_app; simpl; lia.
Qed.

Lemma checkWin_frame s :
  board (checkWin s) = board s /\ hand (checkWin s) = hand s /\
  stock (checkWin s) = stock s /\ moves (checkWin s) = moves s /\
  totalRemoved (checkWin s) = totalRemoved s /\
  selectedOp (checkWin s) = selectedOp s /\
  selectedTargets (checkWin s) = selectedTargets s.
Proof. unfold checkWin. case_match; repeat split. Qed.

Lemma step_heldCount e s r : heldCount s <= 9 -> heldCount (step e s r) <= 9.
Proof.
  intros Hs. unfold step.
  assert (Hcw : forall x, heldCount (checkWin x) = heldCount x).
  { intros x. unfold heldCount. destruct (checkWin_frame x) as (_ & -> & -> & _).
    reflexivity. }
  rewrite Hcw. destruct e; cbn [handle].
  - destruct (click_dichotomy_outcome s id r _ (onSelectCard_outcome s id r))
      as [(_ & Hh & Hst & _) | (_ & Hl & _ & _ & _ & _ & _ & _ & _ & _ & _)];
      unfold heldCount.
    + rewrite Hh, Hst. exact Hs.
    + rewrite Hl. case_match; lia.
  - pose proof (toggleStockFromHand_heldCount_le s cardId).
    change (heldCount (toggleStockFromHand s cardId) <= 9). lia.
  - destruct (drawNextBatch_hand s r) as (Hl & _). unfold heldCount. rewrite Hl.
    case_match; lia.
  - change (heldCount (placeStockBack s) <= 9). rewrite placeStockBack_heldCount.
    exact Hs.
  - rewrite resetGame_unfold. unfold heldCount. cbn [hand stock].
    destruct (genHandBatch_counts (snd (genInitialBoard 6 r))) as (-> & _). lia.
Qed.

(** X15: the player never holds more than 9 cards: in every reachable state
    the hand and the stocked card together are at most 9, so the hand
    is at most 9 cards long (8 after a draw, one more once a stocked
    card was placed back). *)
Theorem held_cards_at_most_nine (s : GameState) :
  reachable s -> heldCount s <= 9 /\ length (hand s) <= 9.
Proof.
  intros Hs.
  assert (H : heldCount s <= 9).
  { induction Hs as [r | s e r _ IH].
    - rewrite mount_unfold. unfold heldCount. cbn [hand stock].
      destruct (genHandBatch_counts (snd (genInitialBoard 6 r))) as (-> & _). lia.
    - apply step_heldCount, IH. }
  split; [exact H |]. unfold heldCount in H. lia.
Qed.

Lemma held_cards_at_most_nine_witness :
  reachable stocked /\ heldCount stocked <= 9 /\ length (hand stocked) <= 9.
Proof.
  split; [exact stocked_reachable |].
  exact (held_cards_at_most_nine stocked stocked_reachable).
Defined.

Lemma handle_board_gameOver e s r :
  e <> ResetGame ->
  length (board (run (handle e s) r)) <= length (board s) /\
  gameOver (run (handle e s) r) = gameOver s.
Proof.
  intros He. destruct e; cbn [handle]; try congruence.
  - destruct (click_dichotomy_outcome s id r _ (onSelectCard_outcome s id r))
      as [(Hb & _ & _ & _ & _ & Hg) | (_ & _ & _ & _ & _ & _ & _ & Hg & Hb & _)].
    + rewrite Hb, Hg. auto.
    + auto.
  - change (run (mret (toggleStockFromHand s cardId)) r) with (toggleStockFromHand s cardId).
    rewrite toggleStockFromHand_board. split; [lia |].
    unfold toggleStockFromHand. repeat case_match; reflexivity.
  - destruct (drawNextBatch_fields s r) as (Hb & _ & _ & _ & Hg & _).
    rewrite Hb, Hg. auto.
  - change (run (mret (placeStockBack s)) r) with (placeStockBack s).
    rewrite placeStockBack_board. split; [lia |].
    unfold placeStockBack. case_match; reflexivity.
Qed.

Lemma reachable_gameOver s : reachable s -> (gameOver s = true <-> board s = []).
Proof.
  induction 1 as [r | s e r _ IH].
  - rewrite mount_unfold. cbn [gameOver board]. split; [discriminate |].
    intros H. pose proof (genInitialBoard_length 6 r) as Hl. cbv beta in Hl.
    rewrite H in Hl. discriminate.
  - unfold step.
    assert (Hdec : e = ResetGame \/ e <> ResetGame)
      by (destruct e; auto; right; discriminate).
    destruct Hdec as [-> | He].
    + cbn [handle]. rewrite resetGame_unfold. unfold checkWin. cbn [gameOver board].
      pose proof (genInitialBoard_length 6 r) as Hl. cbv beta in Hl.
      rewrite Hl. cbn [Nat.eqb andb gameOver board]. split; [discriminate |].
      intros H. rewrite H in Hl. discriminate.
    + destruct (handle_board_gameOver e s r He) as [Hlen Hg].
      set (s1 := run (handle e s) r) in *. unfold checkWin.
      destruct (board s1) as [|z bd] eqn:Hb; cbn [length Nat.eqb andb].
      * destruct (gameOver s1) eqn:Hg1; cbn [negb]; cbn [setGameOver gameOver board];
          rewrite ?Hb, ?Hg1; split; reflexivity.
      * rewrite Hb. split; [| discriminate].
        rewrite Hg. intros Htrue. apply IH in Htrue. rewrite Htrue in Hlen.
        simpl in Hlen. lia.
Qed.

(** X16: in every reachable state the win flag is up exactly when the board
    is empty, and once it is up every event other than a reset keeps it
    up (and keeps the board empty). *)
Theorem gameOver_iff_board_empty (s : GameState) :
  reachable s ->
  (gameOver s = true <-> board s = []) /\
  (forall e r, e <> ResetGame -> gameOver s = true ->
     gameOver (step e s r) = true /\ board (step e s r) = []).
Proof.
  intros Hs. split; [apply reachable_gameOver, Hs |].
  intros e r He Hg.
  assert (Hstep : gameOver (step e s r) = true <-> board (step e s r) = []).
  { apply reachable_gameOver, reachable_step, Hs. }
  assert (Hb : board (step e s r) = []).
  { apply reachable_gameOver in Hg; [| exact Hs].
    destruct (handle_board_gameOver e s r He) as [Hlen _].
    unfold step. rewrite checkWin_board.
    rewrite Hg in Hlen. destruct (board (run (handle e s) r)); [reflexivity |].
    simpl in Hlen. lia. }
  split; [apply Hstep, Hb | exact Hb].
Qed.

Lemma gameOver_iff_board_empty_witness :
  reachable played /\ (gameOver played = true <-> board played = []).
Proof.
  split; [exact played_reachable |].
  exact (proj1 (gameOver_iff_board_empty played played_reachable)).
Defined.

Lemma findCardById_id s id c : findCardById s id = Some c -> card_id c = id.
Proof.
  unfold findCardById.
  destruct (List.find (cardHasId id) (hand s)) as [h|] eqn:Hh.
  { intros [= <-]. apply (find_cardHasId _ _ _ Hh). }
  destruct (List.find (hasId id) (board s)) as [z|] eqn:Hb.
  { intros [= <-]. apply (find_hasId _ _ _ Hb). }
  destruct (stock s) as [st|]; [| discriminate].
  destruct (String.eqb_spec (card_id st) id); [| discriminate].
  intros [= <-]. assumption.
Qed.

Lemma filter_hasId_present id (l : list ComplexCard) i :
  findIndex (hasId id) l = Some i -> 1 <= length (List.filter (hasId id) l).
Proof.
  revert i. induction l as [|x l IH]; simpl; intros i H; [discriminate |].
  destruct (hasId id x); simpl; [lia |].
  destruct (findIndex (hasId id) l) as [k|]; simpl in H; [| discriminate].
  apply (IH k). reflexivity.
Qed.

Lemma filter_lacksId_one id (l : list ComplexCard) i :
  NoDup (map c_id l) -> findIndex (hasId id) l = Some i ->
  length (List.filter (lacksId id) l) + 1 = length l.
Proof.
  intros Hnd Hi.
  pose proof (filter_hasId_NoDup id l Hnd).
  pose proof (filter_hasId_present id l i Hi).
  pose proof (filter_lacksId_count id l). lia.
Qed.

(** The board and removal counter after a binary operation whose first
    operand is not on the board. *)
Lemma performBinary_first_off_board s opCard z1 z2 id1 id2 r :
  NoDup (map c_id (board s)) ->
  onBoard s id1 = false -> c_id z2 = id2 ->
  let s' := run (performBinary s opCard z1 z2 id1 id2) r in
  length (board s') + totalRemoved s' = length (board s) + totalRemoved s /\
  totalRemoved s' <= totalRemoved s + 1.
Proof.
  intros Hnd H1 Hid2. cbv zeta.
  destruct (onBoard s id2) eqn:H2.
  - assert (Hon : onBoard s id1 || onBoard s id2 = true) by (rewrite H1, H2; reflexivity).
    destruct (performBinary_fields s opCard z1 z2 id1 id2 r Hon) as (Hb & _ & Ht & _).
    rewrite Hb, Ht. rewrite H1, H2. cbn [andb].
    set (result := run (applyBinary opCard z2 z1) r).
    apply onBoard_true in H2 as [li Hli]. rewrite <- Hid2 in Hli.
    unfold settleBinary. cbn [andb]. destruct (isReal result).
    + cbn [board totalRemoved setBoard setTotalRemoved setMoves].
      pose proof (filter_lacksId_one _ _ _ Hnd Hli). lia.
    + cbn [board totalRemoved setBoard setTotalRemoved setMoves].
      unfold replaceLeft. rewrite Hli. cbn [andb]. rewrite length_insert. lia.
  - unfold run. rewrite (performBinary_absent s opCard z1 z2 id1 id2 r H1 H2).
    simpl. lia.
Qed.

(** X17: every card a click removes is counted, and a click removes at most
    one: in a reachable state whose board ids are pairwise distinct, a
    click keeps the sum of the board length and [totalRemoved], and the
    board loses at most one card (the first operand of a binary
    operation is never a board card, so two board cards are never
    combined). *)
Theorem click_counts_removals (s : GameState) (id : string) (r : Rng) :
  reachable s -> NoDup (map c_id (board s)) ->
  let s' := step (SelectCard id) s r in
  length (board s') + totalRemoved s' = length (board s) + totalRemoved s /\
  length (board s) <= length (board s') + 1 /\
  totalRemoved s' <= totalRemoved s + 1 /\
  (forall t, In t (selectedTargets s) -> onBoard s t = false).
Proof.
  intros Hs Hnd. cbv zeta.
  destruct (reachable_selectionOk s Hs) as (_ & _ & _ & _ & Hheld).
  assert (Hoff : forall t, In t (selectedTargets s) -> onBoard s t = false).
  { intros t Ht. apply onBoard_find, Hheld, Ht. }
  assert (Hmain :
    length (board (run (onSelectCard s id) r)) + totalRemoved (run (onSelectCard s id) r)
      = length (board s) + totalRemoved s /\
    totalRemoved (run (onSelectCard s id) r) <= totalRemoved s + 1).
  { destruct (onSelectCard_outcome s id r)
      as [| | | opCard target z Hop Hcard Hb |
          | opCard firstId z1 z2 Hop Hk Hts Hne Hc1 Hc2 |];
      try (simpl; lia).
    - apply find_findIndex in Hb as (idx & Hidx & Hx).
      assert (Heq : c_id target = id).
      { destruct (findIndex_Some _ _ _ Hidx) as (x & Hx' & Hp).
        rewrite Hx in Hx'. injection Hx' as <-. apply String.eqb_eq, Hp. }
      rewrite <- Heq in Hidx.
      destruct (performUnary_fields s opCard target r idx Hidx) as (Hbd & _ & Ht & _).
      rewrite Hbd, Ht.
      pose proof (settleUnary_length idx (run (applyUnary opCard target) r)
                    (setMoves (fun m => m + 1) s) target Hx) as Hlen.
      destruct (settleUnary_frame idx (run (applyUnary opCard target) r)
                  (setMoves (fun m => m + 1) s)) as (_ & _ & _ & _ & Htr).
      simpl in Hlen, Htr. rewrite Htr.
      destruct (isReal (run (applyUnary opCard target) r)); lia.
    - apply performBinary_first_off_board; [exact Hnd | |].
      + apply Hoff. rewrite Hts. left. reflexivity.
      + apply (findCardById_id s id (Complex z2) Hc2). }
  unfold step. cbn [handle].
  destruct (checkWin_frame (run (onSelectCard s id) r)) as (-> & _ & _ & _ & -> & _).
  destruct Hmain as [H1 H2]. repeat split; try lia. exact Hoff.
Qed.

Lemma click_counts_removals_witness :
  (reachable picked /\ NoDup (map c_id (board picked))) /\
  length (board played) + totalRemoved played
    = length (board picked) + totalRemoved picked.
Proof.
  assert (Hnd : NoDup (map c_id (board picked)))
    by (apply (bool_decide_unpack _); vm_compute; exact I).
  split; [split; [exact picked_reachable | exact Hnd] |].
  exact (proj1 (click_counts_removals picked "c_02" (exampleTape 50)
                  picked_reachable Hnd)).
Defined.

(** X18: conjugation never clears a card: in a reachable state with a
    conjugation card selected, no click changes the length of the board
    or the removal counter. *)
Theorem conj_never_removes
    (s : GameState) (opCard : UnaryOpCard) (id : string) (r : Rng) :
  reachable s ->
  selectedOp s = Some (Unary opCard) -> u_op opCard = OpConj ->
  let s' := step (SelectCard id) s r in
  length (board s') = length (board s) /\ totalRemoved s' = totalRemoved s.
Proof.
  intros Hs Hsel Hconj. cbv zeta. unfold step. cbn [handle].
  destruct (checkWin_frame (run (onSelectCard s id) r)) as (-> & _ & _ & _ & -> & _).
  destruct (onSelectCard_outcome s id r)
    as [| | | opCard' target z Hop Hcard Hb |
        | opCard' firstId z1 z2 Hop Hk |];
    try (simpl; split; reflexivity).
  - rewrite Hsel in Hop. injection Hop as <-.
    apply find_findIndex in Hb as (idx & Hidx & Hx).
    assert (Heq : c_id target = id).
    { destruct (findIndex_Some _ _ _ Hidx) as (x & Hx' & Hp).
      rewrite Hx in Hx'. injection Hx' as <-. apply String.eqb_eq, Hp. }
    rewrite <- Heq in Hidx.
    destruct (performUnary_fields s opCard target r idx Hidx) as (Hbd & _ & Ht & _).
    rewrite Hbd, Ht.
    assert (Hnr : isReal (run (applyUnary opCard target) r) = false).
    { destruct (coords_applyUnary opCard target r) as [_ Hb'].
      unfold isReal. rewrite Hb', Hconj. apply Z.eqb_neq.
      pose proof (reachable_nonReal s Hs) as Hall.
      rewrite Forall_forall in Hall.
      assert (Hin : target ∈ board s) by (apply list_elem_of_lookup; eauto).
      specialize (Hall target Hin). unfold nonReal in Hall. lia. }
    unfold settleUnary. rewrite Hnr. simpl. rewrite length_insert. auto.
  - rewrite Hsel in Hop. injection Hop as <-. simpl in Hk. congruence.
Qed.

Lemma conjPicked_reachable : reachable conjPicked.
Proof. unfold conjPicked. apply reachable_step, reachable_mount. Defined.

Lemma conj_never_removes_witness :
  (reachable conjPicked /\
   selectedOp conjPicked = Some (Unary (mkUnary "u_36" OpConj)) /\
   u_op (mkUnary "u_36" OpConj) = OpConj) /\
  length (board (step (SelectCard "c_02") conjPicked (exampleTape 50)))
    = length (board conjPicked) /\
  moves (step (SelectCard "c_02") conjPicked (exampleTape 50)) = 1.
Proof.
  split; [split; [exact conjPicked_reachable | split; reflexivity] |].
  split; [| reflexivity].
  exact (proj1 (conj_never_removes conjPicked (mkUnary "u_36" OpConj) "c_02"
                  (exampleTape 50) conjPicked_reachable eq_refl eq_refl)).
Defined.

(** ** Clicks the controller turns down *)

(** X19: a click on a complex card is turned down in three situations.  With
    no operator selected, a board card is ignored.  With a unary
    operator selected, a card that is not on the board is ignored.  With
    a binary operator selected and no target yet, a board card clears
    operator and targets (the first operand has to come from hand or
    stock).  In all three nothing else changes and the random source is
    left unread. *)
Theorem rejected_clicks (s : GameState) (id : string) (z : ComplexCard) (r : Rng) :
  findCardById s id = Some (Complex z) ->
  (selectedOp s = None -> onBoard s id = true -> onSelectCard s id r = (s, r)) /\
  (forall opCard, selectedOp s = Some (Unary opCard) -> onBoard s id = false ->
     onSelectCard s id r = (s, r)) /\
  (forall opCard, selectedOp s = Some (Binary opCard) -> selectedTargets s = [] ->
     onBoard s id = true ->
     onSelectCard s id r = (resetSelections s, r)).
Proof.
  intros Hcard.
  assert (Hon : onBoard s id = true -> exists t, List.find (hasId id) (board s) = Some t).
  { intros H. destruct (List.find (hasId id) (board s)) eqn:Hf; [eauto |].
    apply onBoard_find in Hf. congruence. }
  unfold onSelectCard. rewrite Hcard. repeat split.
  - intros Hop Hb. destruct (Hon Hb) as [t Ht]. rewrite Hop, Ht. reflexivity.
  - intros opCard Hop Hb. apply onBoard_find in Hb. rewrite Hop, Hb. reflexivity.
  - intros opCard Hop Hts Hb. destruct (Hon Hb) as [t Ht].
    rewrite Hop, Hts, Ht. reflexivity.
Qed.

Lemma rejected_clicks_witness :
  let s := step (SelectCard "b_18") mounted (exampleTape 50) in
  (findCardById s "c_02" = Some (Complex c_02) /\
   selectedOp s = Some (Binary b_18) /\ selectedTargets s = [] /\
   onBoard s "c_02" = true) /\
  onSelectCard s "c_02" (exampleTape 50) = (resetSelections s, exampleTape 50).
Proof.
  cbv zeta. split; [repeat split |].
  exact (proj2 (proj2 (rejected_clicks
           (step (SelectCard "b_18") mounted (exampleTape 50)) "c_02" c_02
           (exampleTape 50) eq_refl)) b_18 eq_refl eq_refl eq_refl).
Defined.
